(** * Web_to_pdf: the extraction and document-assembly pipeline of [code1.py]

    A shallow embedding of the functions [fetch_webpage], [include_css],
    [extract_main_content], [style_html_content], [convert_to_docx] and of
    the generation branch of [main].

    The markup tree is the one BeautifulSoup keeps in memory.  The HTML
    parser ([BeautifulSoup(html, "html.parser")]), the serializer
    ([str(soup)]), the network ([requests.get]), [urljoin] and the PDF
    writer are libraries: they are parameters of the pipeline.  Streamlit
    messages and network requests are recorded, in program order, in a
    trace of events. *)

From Stdlib Require Import String Ascii List Bool Arith Lia.
Import ListNotations.
Open Scope string_scope.
Open Scope list_scope.

(** ** The document tree *)

Module Dom.

(** A [Tag] is an [Elem]; a [NavigableString] is a [Text]; [Comment] stands
    for the string subclasses that [get_text] leaves out. *)
#[warnings="-register-all"]
Inductive node : Type :=
| Text (s : string)
| Comment (s : string)
| Elem (name : string) (attrs : list (string * string)) (children : list node).

Definition soup := list node.

Definition children (n : node) : list node :=
  match n with
  | Elem _ _ cs => cs
  | _ => []
  end.

Definition is_tag (n : node) : bool :=
  match n with
  | Elem _ _ _ => true
  | _ => false
  end.

(** Induction over a tree whose children sit in a list. *)
Section NodeInd.
Variable P : node -> Prop.
Hypothesis HText : forall s, P (Text s).
Hypothesis HComment : forall s, P (Comment s).
Hypothesis HElem : forall nm at_ cs, Forall P cs -> P (Elem nm at_ cs).

Fixpoint node_ind' (n : node) : P n :=
  match n with
  | Text s => HText s
  | Comment s => HComment s
  | Elem nm at_ cs =>
      HElem nm at_ cs
        ((fix all (l : list node) : Forall P l :=
            match l with
            | [] => Forall_nil P
            | c :: r => Forall_cons c (node_ind' c) (all r)
            end) cs)
  end.
End NodeInd.

(** *** Strings *)

Definition nonempty (s : string) : bool :=
  match s with
  | EmptyString => false
  | String _ _ => true
  end.

(** Python truthiness of [None] or a string. *)
Definition truthy (o : option string) : bool :=
  match o with
  | Some s => nonempty s
  | None => false
  end.

Definition is_space (c : ascii) : bool :=
  let n := nat_of_ascii c in
  (((9 <=? n) && (n <=? 13)) || ((28 <=? n) && (n <=? 32)))%nat.

(** The runs of non-blank characters of a string: the values bs4 keeps for
    a multi-valued attribute such as [class] or [rel]. *)
Fixpoint words_from (cur : string) (s : string) : list string :=
  match s with
  | EmptyString => if nonempty cur then [cur] else []
  | String c r =>
      if is_space c
      then (if nonempty cur then cur :: words_from "" r else words_from "" r)
      else words_from (cur ++ String c "") r
  end.

Definition words (s : string) : list string := words_from "" s.

Definition mem_string (x : string) (l : list string) : bool :=
  existsb (String.eqb x) l.

(** *** Attributes *)

Fixpoint get_attr (k : string) (attrs : list (string * string)) : option string :=
  match attrs with
  | [] => None
  | (k', v) :: r => if String.eqb k k' then Some v else get_attr k r
  end.

(** *** Tag matchers: the arguments of [find] and [find_all] *)

Definition matcher := string -> list (string * string) -> bool.

Definition by_name (tag : string) : matcher :=
  fun nm _ => String.eqb nm tag.

Definition by_names (tags : list string) : matcher :=
  fun nm _ => mem_string nm tags.

(** [find(tag, id=v)]: the attribute equals [v]. *)
Definition by_attr (tag k v : string) : matcher :=
  fun nm attrs =>
    String.eqb nm tag &&
    match get_attr k attrs with
    | Some v' => String.eqb v' v
    | None => false
    end.

(** [find(tag, class_=v)], [find_all(tag, rel=v)]: one of the values of the
    multi-valued attribute equals [v]. *)
Definition by_token (tag k v : string) : matcher :=
  fun nm attrs =>
    String.eqb nm tag &&
    match get_attr k attrs with
    | Some v' => mem_string v (words v')
    | None => false
    end.

Definition matches (p : matcher) (n : node) : bool :=
  match n with
  | Elem nm attrs _ => p nm attrs
  | _ => false
  end.

(** *** Searching in document order *)

Section FirstSome.
Context {A B : Type}.
Variable f : A -> option B.
Fixpoint first_some (l : list A) : option B :=
  match l with
  | [] => None
  | a :: r =>
      match f a with
      | Some b => Some b
      | None => first_some r
      end
  end.
End FirstSome.

(** The first match among a node and its descendants. *)
Fixpoint find_node (p : matcher) (n : node) : option node :=
  match n with
  | Elem nm attrs cs =>
      if p nm attrs then Some n else first_some (find_node p) cs
  | _ => None
  end.

(** [soup.find(...)], [soup.html], [soup.head], [soup.body]. *)
Definition find (p : matcher) (s : soup) : option node :=
  first_some (find_node p) s.

Fixpoint find_all_node (p : matcher) (n : node) : list node :=
  match n with
  | Elem nm attrs cs =>
      (if p nm attrs then [n] else []) ++ flat_map (find_all_node p) cs
  | _ => []
  end.

(** [tag.find_all(...)]: every matching descendant, in document order. *)
Definition find_all (p : matcher) (s : soup) : list node :=
  flat_map (find_all_node p) s.

(** A node and every node below it, in document order. *)
Fixpoint preorder (n : node) : list node :=
  match n with
  | Elem _ _ cs => n :: flat_map preorder cs
  | _ => [n]
  end.

(** *** Changing the tree *)

(** What is left of a node once every match below it (or the node itself)
    has been [decompose]d. *)
Fixpoint decompose_all (p : matcher) (n : node) : list node :=
  match n with
  | Elem nm attrs cs =>
      if p nm attrs then [] else [Elem nm attrs (flat_map (decompose_all p) cs)]
  | _ => [n]
  end.

(** [for x in region.find_all(...): x.decompose()]: the matches are
    descendants of the region, never the region itself. *)
Definition decompose_in (p : matcher) (region : node) : node :=
  match region with
  | Elem nm attrs cs => Elem nm attrs (flat_map (decompose_all p) cs)
  | _ => region
  end.

Section FirstUpdate.
Context {A : Type}.
Variable f : A -> option A.
Fixpoint first_update (l : list A) : option (list A) :=
  match l with
  | [] => None
  | a :: r =>
      match f a with
      | Some a' => Some (a' :: r)
      | None => option_map (cons a) (first_update r)
      end
  end.
End FirstUpdate.

(** Change the first match in document order; [None] when there is none
    (Python: an attribute access on [None]). *)
Fixpoint update_node (p : matcher) (g : node -> node) (n : node) : option node :=
  match n with
  | Elem nm attrs cs =>
      if p nm attrs then Some (g n)
      else option_map (Elem nm attrs) (first_update (update_node p g) cs)
  | _ => None
  end.

Definition update_first (p : matcher) (g : node -> node) (s : soup) : option soup :=
  first_update (update_node p g) s.

(** [tag.insert(0, child)] and [tag.append(child)]. *)
Definition insert0 (child : node) (n : node) : node :=
  match n with
  | Elem nm attrs cs => Elem nm attrs (child :: cs)
  | _ => n
  end.

Definition append (child : node) (n : node) : node :=
  match n with
  | Elem nm attrs cs => Elem nm attrs (cs ++ [child])
  | _ => n
  end.

(** [tag.get_text()]: the text nodes below the tag, concatenated. *)
Fixpoint get_text (n : node) : string :=
  match n with
  | Text s => s
  | Comment _ => ""
  | Elem _ _ cs => String.concat "" (map get_text cs)
  end.

(** *** Content kept in place

    [sub_soup s t]: [t] is [s] with nodes added.  Every node of [s] is in
    [t] with its name, attributes and text, under the same parent and in
    the same order. *)
Inductive sub_node : node -> node -> Prop :=
| sub_text s : sub_node (Text s) (Text s)
| sub_comment s : sub_node (Comment s) (Comment s)
| sub_elem nm attrs cs cs' :
    sub_soup cs cs' -> sub_node (Elem nm attrs cs) (Elem nm attrs cs')
with sub_soup : list node -> list node -> Prop :=
| sub_nil : sub_soup [] []
| sub_keep n n' s s' : sub_node n n' -> sub_soup s s' -> sub_soup (n :: s) (n' :: s')
| sub_add n' s s' : sub_soup s s' -> sub_soup s (n' :: s').

End Dom.

(** ** Effects: the document under construction, messages, requests *)

Module Effects.

(** What [doc.add_heading], [doc.add_paragraph] and [doc.add_picture]
    append to the word-processor document. *)
Inductive block : Type :=
| Heading (level : nat) (text : string)
| Paragraph (text : string)
| Picture (content : string) (width_inches : nat).

Inductive document : Type :=
| PdfFile (bytes : string)
| DocxFile (blocks : list block).

Inductive event : Type :=
| HttpGet (url : string)
| StError (msg : string)
| StWarning (msg : string)
| StSuccess (msg : string)
| StWrite (msg : string)
| StDownload (label : string) (data : document) (file_name mime : string)
| PdfPreview (pdf : string).

(** [requests.get(url)] followed by [raise_for_status()]. *)
Inductive response : Type :=
| Body (content : string)
| RequestException (msg : string).

Inductive exn : Type :=
| AttributeError (msg : string)
| NameError (msg : string).

Definition exn_msg (e : exn) : string :=
  match e with
  | AttributeError m => m
  | NameError m => m
  end.

Inductive result (A : Type) : Type :=
| Ok (a : A)
| Raise (e : exn).
Arguments Ok {A} a.
Arguments Raise {A} e.

(** A computation: the events it emits, then its value or the exception
    that stopped it. *)
Definition M (A : Type) : Type := list event * result A.

Definition ret {A} (a : A) : M A := ([], Ok a).

Definition bind {A B} (m : M A) (k : A -> M B) : M B :=
  match m with
  | (e1, Ok a) => let (e2, r) := k a in (e1 ++ e2, r)
  | (e1, Raise x) => (e1, Raise x)
  end.

Definition tell (evs : list event) : M unit := (evs, Ok tt).

Definition raise {A} (x : exn) : M A := ([], Raise x).

(** [try: m  except Exception as e: handler e]. *)
Definition try_except {A} (m : M A) (handler : exn -> M A) : M A :=
  match m with
  | (e1, Ok a) => (e1, Ok a)
  | (e1, Raise x) => let (e2, r) := handler x in (e1 ++ e2, r)
  end.

Definition events {A} (m : M A) : list event := fst m.
Definition value {A} (m : M A) : result A := snd m.

(** [m] ends without an exception, with a value that satisfies [P]. *)
Definition returns {A} (P : A -> Prop) (m : M A) : Prop :=
  exists e a, m = (e, Ok a) /\ P a.

(** The messages shown by [st.warning]; the URLs requested. *)
Definition warnings (evs : list event) : list string :=
  flat_map (fun e => match e with StWarning m => [m] | _ => [] end) evs.

Definition requests (evs : list event) : list string :=
  flat_map (fun e => match e with HttpGet u => [u] | _ => [] end) evs.

Definition block_eqb (a b : block) : bool :=
  match a, b with
  | Heading l s, Heading l' s' => Nat.eqb l l' && String.eqb s s'
  | Paragraph s, Paragraph s' => String.eqb s s'
  | Picture c w, Picture c' w' => String.eqb c c' && Nat.eqb w w'
  | _, _ => false
  end.

Definition count_block (b : block) (bs : list block) : nat :=
  length (filter (block_eqb b) bs).

Definition is_picture (b : block) : bool :=
  match b with
  | Picture _ _ => true
  | _ => false
  end.

Definition pictures (bs : list block) : list block := filter is_picture bs.

Section MapLog.
Context {A B E : Type}.
Variable f : A -> B * list E.
(** Run [f] over a list, left to right, collecting what it logs. *)
Fixpoint map_log (l : list A) : list B * list E :=
  match l with
  | [] => ([], [])
  | a :: r =>
      let (b, e1) := f a in
      let (bs, e2) := map_log r in
      (b :: bs, e1 ++ e2)
  end.
End MapLog.

Section FlatLog.
Context {A B E : Type}.
Variable f : A -> list B * list E.
Fixpoint flat_log (l : list A) : list B * list E :=
  match l with
  | [] => ([], [])
  | a :: r =>
      let (b, e1) := f a in
      let (bs, e2) := flat_log r in
      (b ++ bs, e1 ++ e2)
  end.
End FlatLog.

End Effects.

Declare Scope pipeline_scope.
Notation "x <- m ;; k" := (Effects.bind m (fun x => k))
  (at level 61, m at next level, right associativity) : pipeline_scope.
Notation "m ;;; k" := (Effects.bind m (fun _ => k))
  (at level 61, right associativity) : pipeline_scope.

(** ** The pipeline *)

Module Pipeline.
Import Dom Effects.
Local Open Scope pipeline_scope.

(** The text of the style block of [style_html_content]. *)
Definition style_css : string := "
    @import url('https://fonts.googleapis.com/css2?family=Roboto:wght@400;700&display=swap');

    body {
        font-family: 'Roboto', sans-serif;
        line-height: 1.6;
        margin: 0;
        padding: 20px;
    }
    h1, h2, h3, h4, h5, h6 {
        font-weight: 700;
    }
    img {
        display: block;
        margin-left: auto;
        margin-right: auto;
        width: 70%;
        height: auto;
    }
    p {
        text-align: justify;
    }
    ".

Definition html_tag : node := Elem "html" [] [].
Definition head_tag : node := Elem "head" [] [].
Definition style_tag : node := Elem "style" [] [Text style_css].

(** The tree part of [style_html_content]; [AttributeError] where the
    source would reach into [None]. *)
Definition style_soup (soup : Dom.soup) : result Dom.soup :=
  let soup :=
    match find (by_name "html") soup with
    | Some _ => soup
    | None => html_tag :: soup
    end in
  match
    (match find (by_name "head") soup with
     | Some _ => Some soup
     | None => update_first (by_name "html") (insert0 head_tag) soup
     end)
  with
  | None => Raise (AttributeError "'NoneType' object has no attribute 'insert'")
  | Some soup =>
      match update_first (by_name "head") (append style_tag) soup with
      | None => Raise (AttributeError "'NoneType' object has no attribute 'append'")
      | Some soup => Ok soup
      end
  end.

(** The tags [extract_main_content] removes from the region it found. *)
Definition chrome : matcher := by_names ["aside"; "nav"; "header"; "footer"].

Definition or_else {A} (a b : option A) : option A :=
  match a with
  | Some x => Some x
  | None => b
  end.

(** The candidates of [extract_main_content], in the order the source
    tries them; a tag found is truthy, so each [or] stops at the first
    one. *)
Definition select_main_content (soup : Dom.soup) : option node :=
  let main_content :=
    or_else (find (by_name "main") soup) (find (by_name "article") soup) in
  match main_content with
  | Some m => Some m
  | None =>
      or_else (find (by_token "div" "class" "main-content") soup)
     (or_else (find (by_attr "div" "id" "main-content") soup)
     (or_else (find (by_token "div" "class" "content") soup)
     (or_else (find (by_attr "div" "id" "content") soup)
              (find (by_token "div" "class" "primary-content") soup))))
  end.

Definition fallback_warning : string :=
  "Main content not found, using full page content.".

Section WithLibraries.
(** [BeautifulSoup(html, "html.parser")] and [str(soup)]; [str(tag)] is
    [serialize [tag]].  The parser is taken to accept its input. *)
Variable parse : string -> Dom.soup.
Variable serialize : Dom.soup -> string.
(** The network, which answers a URL the same way all through a run, and
    [urljoin], taken to accept its arguments. *)
Variable http_get : string -> response.
Variable urljoin : string -> string -> string.
(** [hasattr(s, 'name')] on a string of the tree: bs4 gives its strings a
    [name] property (it is [None]); older releases do not. *)
Variable str_hasattr_name : bool.
(** [HTML(string=html).write_pdf()]: the bytes, or the exception text;
    what the renderer fetches on its own is not recorded. *)
Variable write_pdf : string -> string + string.

Definition fetch_webpage (url : string) : M (option string) :=
  tell [HttpGet url] ;;;
  match http_get url with
  | Body text => ret (Some text)
  | RequestException e =>
      tell [StError ("Failed to retrieve the webpage: " ++ e)] ;;;
      ret None
  end.

Definition stylesheet_link : matcher := by_token "link" "rel" "stylesheet".

Definition css_warning (href e : string) : string :=
  "Failed to retrieve CSS file " ++ href ++ ": " ++ e.

(** One link of [css_links], then the links below it: [find_all] lists a
    tag before its descendants. *)
Fixpoint include_css_node (base_url : string) (link : node) : node * list event :=
  match link with
  | Elem nm attrs cs =>
      let (cs', below) := map_log (include_css_node base_url) cs in
      if stylesheet_link nm attrs then
        match get_attr "href" attrs with
        | Some href =>
            if nonempty href then
              let href :=
                if String.prefix "http" href then href
                else urljoin base_url href in
              match http_get href with
              | Body css =>
                  (Elem "style" [("type", "text/css")] [Text css],
                   HttpGet href :: below)
              | RequestException e =>
                  (Elem nm attrs cs',
                   HttpGet href :: StWarning (css_warning href e) :: below)
              end
            else (Elem nm attrs cs', below)
        | None => (Elem nm attrs cs', below)
        end
      else (Elem nm attrs cs', below)
  | _ => (link, [])
  end.

Definition include_css_soup (soup : Dom.soup) (base_url : string)
  : Dom.soup * list event :=
  map_log (include_css_node base_url) soup.

Definition include_css (soup : Dom.soup) (base_url : string) : M string :=
  let (soup', evs) := include_css_soup soup base_url in
  tell evs ;;; ret (serialize soup').

Definition extract_main_content (soup : Dom.soup) : M string :=
  match select_main_content soup with
  | Some main_content => ret (serialize [decompose_in chrome main_content])
  | None => tell [StWarning fallback_warning] ;;; ret (serialize soup)
  end.

Definition style_html_content (html_content : string) : M string :=
  match style_soup (parse html_content) with
  | Ok soup => ret (serialize soup)
  | Raise e => raise e
  end.

Definition convert_to_pdf (html_content : string) : M (option string) :=
  match write_pdf html_content with
  | inl pdf => ret (Some pdf)
  | inr e => tell [StError ("Failed to generate PDF: " ++ e)] ;;; ret None
  end.

Definition image_warning (img_url e : string) : string :=
  "Failed to retrieve image " ++ img_url ++ ": " ++ e.

(** The [if]/[elif] chain of [process_element]: what the tag itself adds
    to the document.  [doc.add_heading], [doc.add_paragraph] and
    [doc.add_picture] are taken to accept what they are given. *)
Definition own_blocks (base_url : string) (element : node)
  : list block * list event :=
  match element with
  | Elem nm attrs _ =>
      if String.eqb nm "h1" then ([Heading 1 (get_text element)], [])
      else if String.eqb nm "h2" then ([Heading 2 (get_text element)], [])
      else if String.eqb nm "h3" then ([Heading 3 (get_text element)], [])
      else if String.eqb nm "p" then ([Paragraph (get_text element)], [])
      else if String.eqb nm "img" then
        match get_attr "src" attrs with
        | Some img_url =>
            if nonempty img_url then
              let img_url := urljoin base_url img_url in
              match http_get img_url with
              | Body content => ([Picture content 4], [HttpGet img_url])
              | RequestException e =>
                  ([], [HttpGet img_url; StWarning (image_warning img_url e)])
              end
            else ([], [])
        | None => ([], [])
        end
      else ([], [])
  | _ => ([], [])
  end.

(** The body of [for child in element.children]: a string child becomes
    a paragraph, a tag child is processed in turn. *)
Definition child_blocks (process : node -> list block * list event)
  (child : node) : list block * list event :=
  match child with
  | Text s => ([Paragraph s], [])
  | Comment s => ([Paragraph s], [])
  | Elem _ _ _ => process child
  end.

(** [process_element] on a tag: its own block, then its children in
    order.  The document is the first component. *)
Fixpoint process_tag (base_url : string) (element : node)
  : list block * list event :=
  match element with
  | Elem _ _ cs =>
      let (b, e) := own_blocks base_url element in
      let (bs, es) := flat_log (child_blocks (process_tag base_url)) cs in
      (b ++ bs, e ++ es)
  | _ => ([], [])
  end.

Definition process_children (base_url : string) (cs : list node)
  : list block * list event :=
  flat_log (child_blocks (process_tag base_url)) cs.

Definition no_children_error : string :=
  "'NavigableString' object has no attribute 'children'".

(** [process_element]: a string has no [children].  (The message names
    the class of the string; the one of a plain string is kept here.) *)
Definition process_element (base_url : string) (element : node) : M (list block) :=
  match element with
  | Elem _ _ _ =>
      let (bs, evs) := process_tag base_url element in
      tell evs ;;; ret bs
  | _ => raise (AttributeError no_children_error)
  end.

Definition hasattr_name (element : node) : bool :=
  match element with
  | Elem _ _ _ => true
  | _ => str_hasattr_name
  end.

(** [for element in body.children: ...]. *)
Fixpoint process_body (base_url : string) (elements : list node) : M (list block) :=
  match elements with
  | [] => ret []
  | element :: rest =>
      if hasattr_name element then
        bs <- process_element base_url element ;;
        bs' <- process_body base_url rest ;;
        ret (bs ++ bs')
      else process_body base_url rest
  end.

Definition body_children (soup : Dom.soup) : list node :=
  match find (by_name "body") soup with
  | Some body => children body
  | None => soup
  end.

(** The saved document is handed over as its blocks (a saved file is
    never empty, so it is truthy); [None] after an exception. *)
Definition convert_to_docx (html_content base_url : string)
  : M (option (list block)) :=
  try_except
    (bs <- process_body base_url (body_children (parse html_content)) ;;
     ret (Some bs))
    (fun e =>
       tell [StError ("Failed to generate DOCX: " ++ exn_msg e)] ;;;
       ret None).

Inductive doc_type : Type := PDF | DOCX.

(** The loop over [urls]: [combined_html_content], and [base_url] once
    it has been assigned. *)
Definition page_warning (url : string) : string :=
  "Failed to retrieve the webpage content for URL: " ++ url.

Definition add_page (url : string) (state : string * option string)
  : M (string * option string) :=
  let (combined_html_content, base_url) := state in
  if nonempty url then
    html_content <- fetch_webpage url ;;
    match html_content with
    | Some html_content =>
        if nonempty html_content then
          let soup := parse html_content in
          let base_url := urljoin url "/" in
          html_with_css <- include_css soup base_url ;;
          main_content_html <- extract_main_content (parse html_with_css) ;;
          styled_html_content <-
            (if nonempty main_content_html
             then style_html_content main_content_html
             else style_html_content html_with_css) ;;
          ret ((combined_html_content ++ styled_html_content)%string,
               Some base_url)
        else tell [StWarning (page_warning url)] ;;; ret state
    | None => tell [StWarning (page_warning url)] ;;; ret state
    end
  else ret state.

Fixpoint add_pages (urls : list string) (state : string * option string)
  : M (string * option string) :=
  match urls with
  | [] => ret state
  | url :: rest => state' <- add_page url state ;; add_pages rest state'
  end.

Definition docx_mime : string :=
  "application/vnd.openxmlformats-officedocument.wordprocessingml.document".

(** What follows the loop.  The preview of the PDF (a temporary file read
    back page by page) is one event. *)
Definition generate (dt : doc_type) (state : string * option string) : M unit :=
  let (combined_html_content, base_url) := state in
  if nonempty combined_html_content then
    match dt with
    | PDF =>
        pdf <- convert_to_pdf combined_html_content ;;
        if truthy pdf then
          match pdf with
          | Some pdf =>
              tell [StSuccess "PDF generated successfully!";
                    StDownload "Download PDF" (PdfFile pdf)
                      "combined_webpage.pdf" "application/pdf";
                    StWrite "Preview of the PDF content:";
                    PdfPreview pdf]
          | None => ret tt
          end
        else ret tt
    | DOCX =>
        match base_url with
        | None => raise (NameError "name 'base_url' is not defined")
        | Some base_url =>
            docx_content <- convert_to_docx combined_html_content base_url ;;
            match docx_content with
            | Some blocks =>
                tell [StSuccess "DOCX generated successfully!";
                      StDownload "Download DOCX" (DocxFile blocks)
                        "combined_webpage.docx" docx_mime]
            | None => ret tt
            end
        end
    end
  else tell [StWarning "No valid content to generate document."].

(** [main] once "Generate Document" is pressed. *)
Definition main (urls : list string) (dt : doc_type) : M unit :=
  state <- add_pages urls ("", None) ;;
  generate dt state.

(** The blocks [main] hands to the download button. *)
Definition downloaded (evs : list event) : list document :=
  flat_map (fun e => match e with StDownload _ d _ _ => [d] | _ => [] end) evs.

End WithLibraries.

End Pipeline.

(** ** An executable parser and serializer for well-formed markup

    Enough of [html.parser] and of [str(soup)] to run the pipeline on
    concrete pages: tags with double-quoted attributes, void tags, text
    and comments; no entities, no [<] or [>] inside text or attribute
    values. *)

Module MiniSoup.
Import Dom.

Definition void_tags : list string :=
  ["area"; "base"; "br"; "col"; "embed"; "hr"; "img"; "input"; "link";
   "meta"; "param"; "source"; "track"; "wbr"].

Definition serialize_attrs (attrs : list (string * string)) : string :=
  String.concat ""
    (map (fun kv => " " ++ fst kv ++ "=" ++ String (ascii_of_nat 34) (snd kv)
                    ++ String (ascii_of_nat 34) "")%string attrs).

Fixpoint serialize_node (n : node) : string :=
  match n with
  | Text s => s
  | Comment s => "<!--" ++ s ++ "-->"
  | Elem nm attrs cs =>
      match cs with
      | [] =>
          if mem_string nm void_tags
          then "<" ++ nm ++ serialize_attrs attrs ++ "/>"
          else "<" ++ nm ++ serialize_attrs attrs ++ "></" ++ nm ++ ">"
      | _ =>
          "<" ++ nm ++ serialize_attrs attrs ++ ">"
          ++ String.concat "" (map serialize_node cs) ++ "</" ++ nm ++ ">"
      end
  end%string.

Definition serialize (s : soup) : string :=
  String.concat "" (map serialize_node s).

Inductive token : Type :=
| TOpen (name : string) (attrs : list (string * string))
| TSelfClosed (name : string) (attrs : list (string * string))
| TClose (name : string)
| TText (s : string)
| TComment (s : string)
| TSkip.

Definition snoc (s : string) (c : ascii) : string := (s ++ String c "")%string.

Inductive attr_mode : Type := Between | InKey | AfterEq | InValue.

Fixpoint parse_attrs (mode : attr_mode) (key val : string) (s : string)
  : list (string * string) :=
  match s with
  | EmptyString =>
      match mode with
      | InKey | AfterEq => [(key, "")]
      | _ => []
      end
  | String c r =>
      match mode with
      | Between =>
          if is_space c || Ascii.eqb c "/" then parse_attrs Between "" "" r
          else parse_attrs InKey (String c "") "" r
      | InKey =>
          if Ascii.eqb c "=" then parse_attrs AfterEq key "" r
          else if is_space c then (key, "") :: parse_attrs Between "" "" r
          else parse_attrs InKey (snoc key c) "" r
      | AfterEq =>
          if Nat.eqb (nat_of_ascii c) 34 then parse_attrs InValue key "" r
          else (key, "") :: parse_attrs Between "" "" r
      | InValue =>
          if Nat.eqb (nat_of_ascii c) 34
          then (key, val) :: parse_attrs Between "" "" r
          else parse_attrs InValue key (snoc val c) r
      end
  end.

(** The tag name, then what follows it. *)
Fixpoint split_name (name : string) (s : string) : string * string :=
  match s with
  | EmptyString => (name, "")
  | String c r =>
      if is_space c || Ascii.eqb c "/" then (name, s)
      else split_name (snoc name c) r
  end.

Fixpoint ends_with_slash (s : string) : bool :=
  match s with
  | EmptyString => false
  | String c EmptyString => Ascii.eqb c "/"
  | String _ r => ends_with_slash r
  end.

Definition tag_token (inside : string) : token :=
  match inside with
  | String "/" r => TClose (fst (split_name "" r))
  | String "!" r =>
      if String.prefix "--" r && (4 <=? String.length r)%nat
      then TComment (String.substring 2 (String.length r - 4) r)
      else TSkip
  | _ =>
      let (name, rest) := split_name "" inside in
      let attrs := parse_attrs Between "" "" rest in
      if ends_with_slash inside then TSelfClosed name attrs
      else TOpen name attrs
  end.

(** [in_tag]: between [<] and [>]. *)
Fixpoint tokenize (in_tag : bool) (acc : string) (s : string) : list token :=
  match s with
  | EmptyString => if nonempty acc && negb in_tag then [TText acc] else []
  | String c r =>
      if in_tag then
        if Ascii.eqb c ">" then tag_token acc :: tokenize false "" r
        else tokenize true (snoc acc c) r
      else
        if Ascii.eqb c "<"
        then (if nonempty acc then [TText acc] else []) ++ tokenize true "" r
        else tokenize false (snoc acc c) r
  end.

(** An open tag: its name, attributes and the children read so far, last
    first. *)
Definition frame : Type := string * list (string * string) * list node.

Definition add_child (n : node) (stack : list frame) (top : list node)
  : list frame * list node :=
  match stack with
  | [] => ([], n :: top)
  | (nm, attrs, cs) :: r => ((nm, attrs, n :: cs) :: r, top)
  end.

Fixpoint close_to (nm : string) (pending : list node) (stack : list frame)
  (top : list node) : list frame * list node :=
  match stack with
  | [] => ([], pending ++ top)
  | (nm', attrs, cs) :: r =>
      let e := Elem nm' attrs (rev (pending ++ cs)) in
      if String.eqb nm' nm then add_child e r top
      else close_to nm [e] r top
  end.

Fixpoint close_all (pending : list node) (stack : list frame) (top : list node)
  : list node :=
  match stack with
  | [] => rev (pending ++ top)
  | (nm', attrs, cs) :: r =>
      close_all [Elem nm' attrs (rev (pending ++ cs))] r top
  end.

Definition is_open (nm : string) (stack : list frame) : bool :=
  existsb (fun f => String.eqb (fst (fst f)) nm) stack.

Fixpoint build (tokens : list token) (stack : list frame) (top : list node)
  : list node :=
  match tokens with
  | [] => close_all [] stack top
  | t :: r =>
      let (stack', top') :=
        match t with
        | TOpen nm attrs =>
            if mem_string nm void_tags then add_child (Elem nm attrs []) stack top
            else ((nm, attrs, []) :: stack, top)
        | TSelfClosed nm attrs => add_child (Elem nm attrs []) stack top
        | TClose nm =>
            if is_open nm stack then close_to nm [] stack top else (stack, top)
        | TText s => add_child (Text s) stack top
        | TComment s => add_child (Comment s) stack top
        | TSkip => (stack, top)
        end in
      build r stack' top'
  end.

Definition parse (html : string) : soup := build (tokenize false "" html) [] [].

(** [urljoin] for an absolute reference, a reference from the root, and a
    reference relative to a base that ends in [/]. *)
Fixpoint origin (slashes : nat) (url : string) : string :=
  match url with
  | EmptyString => ""
  | String c r =>
      if Ascii.eqb c "/" then
        if Nat.eqb slashes 2 then "" else String c (origin (S slashes) r)
      else String c (origin slashes r)
  end.

Fixpoint has_slash (s : string) : bool :=
  match s with
  | EmptyString => false
  | String c r => Ascii.eqb c "/" || has_slash r
  end.

Fixpoint directory (url : string) : string :=
  match url with
  | EmptyString => ""
  | String c r => if has_slash url then String c (directory r) else ""
  end.

Definition urljoin (base ref : string) : string :=
  if String.prefix "http" ref then ref
  else if String.prefix "/" ref then (origin 0 base ++ ref)%string
  else (directory base ++ ref)%string.

End MiniSoup.

(** ** What the specification talks about *)

Module Spec.
Import Dom Effects Pipeline.

(** The priority order of the content selector, as one table. *)
Definition selector_table : list matcher :=
  [ by_name "main";
    by_name "article";
    by_token "div" "class" "main-content";
    by_attr "div" "id" "main-content";
    by_token "div" "class" "content";
    by_attr "div" "id" "content";
    by_token "div" "class" "primary-content" ].

(** First match wins. *)
Definition first_match (soup : Dom.soup) : option node :=
  first_some (fun p => find p soup) selector_table.

(** The document has an [html] root with a [head] child. *)
Definition html_root_has_head (s : Dom.soup) : bool :=
  existsb (fun n => matches (by_name "html") n
                    && existsb (matches (by_name "head")) (children n)) s.

Definition has_root (tag : string) (s : Dom.soup) : bool :=
  existsb (matches (by_name tag)) s.

Fixpoint contains (needle hay : string) : bool :=
  String.prefix needle hay ||
  match hay with
  | EmptyString => false
  | String _ r => contains needle r
  end.

(** The rules the style block has to define. *)
Definition baseline_rules (css : string) : bool :=
  contains "body {
        font-family: 'Roboto', sans-serif;
        line-height: 1.6;" css
  && contains "h1, h2, h3, h4, h5, h6 {
        font-weight: 700;" css
  && contains "img {
        display: block;
        margin-left: auto;
        margin-right: auto;
        width: 70%;" css
  && contains "p {
        text-align: justify;" css.

(** The document once [style_html_content] has made sure of an [html]
    tag; the [head] it builds when there is none. *)
Definition shell (s : Dom.soup) : Dom.soup :=
  match find (by_name "html") s with
  | Some _ => s
  | None => html_tag :: s
  end.

Definition head_styled : node := Elem "head" [] [style_tag].

(** The [main] tag of the end-to-end scenario, whatever its attributes,
    and the styled document made from it. *)
Definition title_main (a_main a_h1 a_p : list (string * string)) : node :=
  Elem "main" a_main
    [Elem "h1" a_h1 [Text "Title"]; Elem "p" a_p [Text "Body text"]].

Definition title_styled (a_main a_h1 a_p : list (string * string)) : Dom.soup :=
  [Elem "html" [] [head_styled]; title_main a_main a_h1 a_p].

(** What the translator makes of a styled page whose content is
    [<main><h1>Title</h1><p>Body text</p></main>]. *)
Definition title_page_blocks : list block :=
  [ Paragraph style_css;
    Heading 1 "Title"; Paragraph "Title";
    Paragraph "Body text"; Paragraph "Body text" ].

Section Translation.
Variable http_get : string -> response.
Variable urljoin : string -> string -> string.
Variable str_hasattr_name : bool.

(** What a node of the walk contributes by itself: a string its
    paragraph, a tag what the [if]/[elif] chain does for it. *)
Definition item (base_url : string) (n : node) : list block * list event :=
  match n with
  | Text s => ([Paragraph s], [])
  | Comment s => ([Paragraph s], [])
  | Elem _ _ _ => own_blocks http_get urljoin base_url n
  end.

Definition emitted (base_url : string) (n : node) : list block :=
  fst (item base_url n).

Definition logged (base_url : string) (n : node) : list event :=
  snd (item base_url n).

(** The nodes of the walk, in document order: the tags among the
    children of the starting element and everything below them. *)
Definition document_order (top : list node) : list node :=
  flat_map preorder (filter is_tag top).

(** Where the block of the node at position [i] lands in the output. *)
Definition block_index (base_url : string) (nodes : list node) (i : nat) : nat :=
  length (flat_map (emitted base_url) (firstn i nodes)).

(** The reference an [img] tag makes the translator fetch. *)
Definition img_src (n : node) : list string :=
  match n with
  | Elem nm attrs _ =>
      if String.eqb nm "img" then
        match get_attr "src" attrs with
        | Some src => if nonempty src then [src] else []
        | None => []
        end
      else []
  | _ => []
  end.

(** The children of the starting element that are processed before the
    walk ends or is stopped by an exception. *)
Fixpoint visited (top : list node) : list node :=
  match top with
  | [] => []
  | Elem nm attrs cs :: r => Elem nm attrs cs :: visited r
  | _ :: r => if str_hasattr_name then [] else visited r
  end.

(** The walk is not stopped: strings among the children of the starting
    element are skipped, or there are none. *)
Definition gets_through (top : list node) : bool :=
  negb str_hasattr_name || forallb is_tag top.

(** A page that is fetched and is not empty. *)
Definition usable (url : string) : bool :=
  nonempty url &&
  match http_get url with
  | Body text => nonempty text
  | RequestException _ => false
  end.

(** The last usable URL of the input. *)
Fixpoint last_success (urls : list string) : option string :=
  match urls with
  | [] => None
  | u :: r =>
      match last_success r with
      | Some v => Some v
      | None => if usable u then Some u else None
      end
  end.

Definition image_failures (evs : list event) : nat := length (warnings evs).
End Translation.

End Spec.

(** ** Concrete pages and a concrete network *)

Module Examples.
Import Dom Effects Pipeline.

Definition url_title : string := "http://a.example/docs/page.html".
Definition url_gone : string := "http://b.example/gone".
Definition url_one : string := "http://a.example/blog/one.html".
Definition url_two : string := "http://b.example/two.html".
Definition url_links : string := "http://c.example/links.html".

(** The page of the end-to-end scenario. *)
Definition main_title : node :=
  Elem "main" [] [Elem "h1" [] [Text "Title"]; Elem "p" [] [Text "Body text"]].

Definition title_page_soup : soup :=
  [Elem "html" []
     [Elem "head" []
        [Elem "title" [] [Text "T"];
         Elem "link" [("rel", "stylesheet"); ("href", "/site.css")] []];
      Elem "body" [] [main_title]]].

Definition page_title : string := MiniSoup.serialize title_page_soup.

(** Two pages with one picture each, referenced from the root. *)
Definition main_one : node :=
  Elem "main" [] [Elem "h2" [] [Text "One"]; Elem "img" [("src", "/pic.png")] []].
Definition main_two : node :=
  Elem "main" [] [Elem "img" [("src", "/logo.png")] []; Elem "p" [] [Text "Two"]].
Definition page_one : string := MiniSoup.serialize [main_one].
Definition page_two : string := MiniSoup.serialize [main_two].

(** A page with two stylesheets; the first one cannot be fetched. *)
Definition link_a : node := Elem "link" [("rel", "stylesheet"); ("href", "a.css")] [].
Definition link_b : node := Elem "link" [("rel", "stylesheet"); ("href", "/b.css")] [].
Definition page_links_soup : soup :=
  [Elem "html" []
     [Elem "head" [] [link_a; link_b];
      Elem "body" [] [Elem "main" [] [Elem "p" [] [Text "x"]]]]].
Definition page_links : string := MiniSoup.serialize page_links_soup.

Definition not_found : string := "404 Client Error: Not Found".

Definition routes : list (string * string) :=
  [ (url_title, page_title);
    (url_one, page_one);
    (url_two, page_two);
    (url_links, page_links);
    ("http://a.example/site.css", "h1 { color: navy; }");
    ("http://c.example/b.css", "p { color: black; }");
    ("http://b.example/logo.png", "PNG") ].

Definition web (url : string) : response :=
  match get_attr url routes with
  | Some content => Body content
  | None => RequestException not_found
  end.

Definition no_pdf (html : string) : string + string := inr "no renderer".

(** A body that starts with loose text. *)
Definition loose_html : string := "<body>loose text<p>para</p></body>".

(** A fragment whose [head] is not under an [html] tag, and one whose
    [html] tag is not at the root. *)
Definition stray_head_html : string := "<div><head></head></div>".
Definition nested_html : string := "<div><html></html></div>".

Definition run (str_hasattr_name : bool) (urls : list string) (dt : doc_type) : M unit :=
  main MiniSoup.parse MiniSoup.serialize web MiniSoup.urljoin str_hasattr_name
    no_pdf urls dt.

Definition to_docx (str_hasattr_name : bool) (html base : string)
  : M (option (list block)) :=
  convert_to_docx MiniSoup.parse web MiniSoup.urljoin str_hasattr_name html base.

End Examples.

(** ** More of what the code does, in the words of its users *)

Module Behaviour.
Import Dom Effects Pipeline.

(** The number of tags of one name in a document. *)
Definition count_tags (tag : string) (s : soup) : nat :=
  length (find_all (by_name tag) s).

(** What [python-docx] is asked for: headings of level 1 to 3, pictures
    four inches wide. *)
Definition well_formed (b : block) : bool :=
  match b with
  | Heading level _ => (1 <=? level)%nat && (level <=? 3)%nat
  | Paragraph _ => true
  | Picture _ width => Nat.eqb width 4
  end.

(** The markup gathered by a run of the loop, when it ends. *)
Definition combined_of (m : M (string * option string)) : string :=
  match value m with
  | Ok state => fst state
  | Raise _ => ""
  end.

Definition no_content_warning : string :=
  "No valid content to generate document.".

Section Links.
Variable http_get : string -> response.
Variable urljoin : string -> string -> string.

(** The URL [include_css] requests for a link of [css_links]. *)
Definition css_href (base_url : string) (link : node) : list string :=
  match link with
  | Elem _ attrs _ =>
      match get_attr "href" attrs with
      | Some href =>
          if nonempty href
          then [if String.prefix "http" href then href else urljoin base_url href]
          else []
      | None => []
      end
  | _ => []
  end.

(** A link that [include_css] cannot replace: it has no reference, or
    its stylesheet cannot be fetched. *)
Definition unresolved (base_url : string) (link : node) : bool :=
  match css_href base_url link with
  | [] => true
  | url :: _ =>
      match http_get url with
      | Body _ => false
      | RequestException _ => true
      end
  end.

(** What the loop shows for a URL that gives no page. *)
Definition skipped_page_events (url : string) : list event :=
  if nonempty url then
    match http_get url with
    | Body _ => [HttpGet url; StWarning (page_warning url)]
    | RequestException e =>
        [HttpGet url; StError ("Failed to retrieve the webpage: " ++ e);
         StWarning (page_warning url)]
    end
  else [].
End Links.

(** A network where one more URL answers with an empty page. *)
Definition url_blank : string := "http://d.example/blank".

Definition web_blank (url : string) : response :=
  if String.eqb url url_blank then Body "" else Examples.web url.

(** Two whole pages, one after the other, as the loop of [main] gathers
    them when no main region is found. *)
Definition whole_page (text : string) : node :=
  Elem "html" [] [Elem "head" [] []; Elem "body" [] [Elem "p" [] [Text text]]].

Definition first_page_html : string := MiniSoup.serialize [whole_page "first"].
Definition second_page_html : string := MiniSoup.serialize [whole_page "second"].

End Behaviour.

(** ** Properties *)

Module DomFacts.
Import Dom.

Scheme sub_node_mut := Minimality for sub_node Sort Prop
  with sub_soup_mut := Minimality for sub_soup Sort Prop.
Combined Scheme sub_mutind from sub_node_mut, sub_soup_mut.

Lemma sub_refl_node (n : node) : sub_node n n.
Proof.
  induction n as [s | s | nm attrs cs IH] using node_ind'; constructor.
  induction IH; constructor; assumption.
Qed.

Lemma sub_soup_refl (s : soup) : sub_soup s s.
Proof.
  induction s; constructor; auto using sub_refl_node.
Qed.

Lemma sub_soup_snoc (s : soup) (n : node) : sub_soup s (s ++ [n]).
Proof.
  induction s; simpl.
  - apply sub_add, sub_nil.
  - apply sub_keep; auto using sub_refl_node.
Qed.

Lemma sub_insert0 (c n : node) : sub_node n (insert0 c n).
Proof.
  destruct n; simpl; try apply sub_refl_node.
  apply sub_elem, sub_add, sub_soup_refl.
Qed.

Lemma sub_append (c n : node) : sub_node n (append c n).
Proof.
  destruct n; simpl; try apply sub_refl_node.
  apply sub_elem, sub_soup_snoc.
Qed.

Section Update.
Variable p : matcher.
Variable g : node -> node.

Lemma update_node_sub (Hg : forall n, sub_node n (g n)) (n n' : node) :
  update_node p g n = Some n' -> sub_node n n'.
Proof.
  revert n'.
  induction n as [s | s | nm attrs cs IH] using node_ind'; simpl; try discriminate.
  intros n'. destruct (p nm attrs).
  - intros [= <-]. apply Hg.
  - destruct (first_update (update_node p g) cs) as [cs'|] eqn:E; simpl; [|discriminate].
    intros [= <-]. apply sub_elem.
    revert cs' E. induction IH as [|c r Hc _ IHr]; simpl; [discriminate|].
    intros cs'. destruct (update_node p g c) as [c'|].
    + intros [= <-]. apply sub_keep; auto using sub_soup_refl.
    + destruct (first_update (update_node p g) r) as [r'|]; simpl; [|discriminate].
      intros [= <-]. apply sub_keep; auto using sub_refl_node.
Qed.

Lemma update_first_sub (Hg : forall n, sub_node n (g n)) (s s' : soup) :
  update_first p g s = Some s' -> sub_soup s s'.
Proof.
  unfold update_first. revert s'.
  induction s as [|c r IHr]; simpl; [discriminate|].
  intros s'. destruct (update_node p g c) as [c'|] eqn:E.
  - intros [= <-]. apply sub_keep; eauto using update_node_sub, sub_soup_refl.
  - destruct (first_update (update_node p g) r) as [r'|]; simpl; [|discriminate].
    intros [= <-]. apply sub_keep; auto using sub_refl_node.
Qed.

(** There is something to change exactly when [find] finds a match. *)
Lemma update_node_none (n : node) :
  update_node p g n = None <-> find_node p n = None.
Proof.
  induction n as [s | s | nm attrs cs IH] using node_ind'; simpl; try tauto.
  destruct (p nm attrs); [split; discriminate|].
  induction IH as [|c r Hc _ IHr]; simpl; [tauto|].
  destruct (update_node p g c) as [c'|], (find_node p c) as [m|];
    simpl; try (split; discriminate).
  - destruct Hc as [_ Hc]. specialize (Hc eq_refl). discriminate.
  - destruct Hc as [Hc _]. specialize (Hc eq_refl). discriminate.
  - destruct (first_update (update_node p g) r); simpl in *.
    + split; [discriminate|]. intros H. apply IHr in H. discriminate.
    + split; auto. intros _. apply IHr. reflexivity.
Qed.

Lemma update_first_none (s : soup) :
  update_first p g s = None <-> find p s = None.
Proof.
  unfold update_first, find.
  induction s as [|c r IHr]; simpl; [tauto|].
  pose proof (update_node_none c) as Hc.
  destruct (update_node p g c) as [c'|], (find_node p c) as [m|];
    simpl; try (split; discriminate).
  - destruct Hc as [_ Hc]. specialize (Hc eq_refl). discriminate.
  - destruct Hc as [Hc _]. specialize (Hc eq_refl). discriminate.
  - destruct (first_update (update_node p g) r); simpl in *.
    + split; [discriminate|]. intros H. apply IHr in H. discriminate.
    + split; auto. intros _. apply IHr. reflexivity.
Qed.

(** [g] keeps the name and the attributes of the tag it changes. *)
Hypothesis g_keeps_tag :
  forall nm attrs cs, exists cs', g (Elem nm attrs cs) = Elem nm attrs cs'.

Lemma find_update_node (n n' m : node) :
  update_node p g n = Some n' -> find_node p n = Some m ->
  find_node p n' = Some (g m).
Proof.
  revert n' m.
  induction n as [s | s | nm attrs cs IH] using node_ind'; simpl; try discriminate.
  intros n' m. destruct (p nm attrs) eqn:Ep.
  - intros [= <-] [= <-].
    destruct (g_keeps_tag nm attrs cs) as [cs' ->]. simpl. rewrite Ep. reflexivity.
  - destruct (first_update (update_node p g) cs) as [cs'|] eqn:E; simpl; [|discriminate].
    intros [= <-]. simpl. rewrite Ep.
    revert cs' E. induction IH as [|c r Hc _ IHr]; simpl; [discriminate|].
    intros cs'. destruct (update_node p g c) as [c'|] eqn:Ec.
    + intros [= <-]. simpl.
      destruct (find_node p c) as [mc|] eqn:Fc.
      * intros [= <-]. rewrite (Hc _ _ eq_refl eq_refl). reflexivity.
      * apply update_node_none in Fc. congruence.
    + destruct (first_update (update_node p g) r) as [r'|]; simpl; [|discriminate].
      intros [= <-]. simpl.
      apply update_node_none in Ec. rewrite Ec. apply IHr. reflexivity.
Qed.

Lemma find_update_first (s s' : soup) (m : node) :
  update_first p g s = Some s' -> find p s = Some m ->
  find p s' = Some (g m).
Proof.
  unfold update_first, find. revert s'.
  induction s as [|c r IHr]; simpl; [discriminate|].
  intros s'. destruct (update_node p g c) as [c'|] eqn:Ec.
  - intros [= <-]. simpl.
    destruct (find_node p c) as [mc|] eqn:Fc.
    + intros [= <-]. rewrite (find_update_node _ _ _ Ec Fc). reflexivity.
    + apply update_node_none in Fc. congruence.
  - destruct (first_update (update_node p g) r) as [r'|]; simpl; [|discriminate].
    intros [= <-]. simpl.
    apply update_node_none in Ec. rewrite Ec. apply IHr. reflexivity.
Qed.
End Update.

Lemma update_matching (q : matcher) (g : node -> node) (c : node) :
  matches q c = true -> update_node q g c = Some (g c).
Proof.
  destruct c as [s | s | nm attrs cs]; simpl; try discriminate.
  intros ->. reflexivity.
Qed.

(** Changing a tag that has just been inserted is inserting the changed
    tag, when nothing else matches. *)
Lemma update_inserted_node (p q : matcher) (g : node -> node) (c n n2 : node) :
  matches q c = true -> find_node q n = None ->
  update_node p (insert0 c) n = Some n2 ->
  update_node q g n2 = update_node p (insert0 (g c)) n.
Proof.
  intros Hc. revert n2.
  induction n as [s | s | nm attrs cs IH] using node_ind'; simpl; try discriminate.
  intros n2. destruct (q nm attrs) eqn:Eq; [discriminate|].
  intros Hnone. destruct (p nm attrs) eqn:Ep.
  - intros [= <-]. simpl. rewrite Eq. simpl.
    rewrite (update_matching q g c Hc). reflexivity.
  - destruct (first_update (update_node p (insert0 c)) cs) as [cs2|] eqn:E;
      simpl; [|discriminate].
    intros [= <-]. simpl. rewrite Eq. f_equal.
    revert cs2 E Hnone.
    induction IH as [|a r Ha _ IHr]; simpl; [discriminate|].
    intros cs2. destruct (find_node q a) as [m|] eqn:Fa; [discriminate|].
    destruct (update_node p (insert0 c) a) as [a2|] eqn:Ea.
    + intros [= <-] Hr. simpl.
      rewrite (Ha a2 eq_refl eq_refl).
      destruct (update_node p (insert0 (g c)) a) as [a3|] eqn:Ea3; [reflexivity|].
      apply update_node_none in Ea3.
      apply (update_node_none p (insert0 c)) in Ea3. congruence.
    + destruct (first_update (update_node p (insert0 c)) r) as [r2|] eqn:Er;
        simpl; [|discriminate].
      intros [= <-] Hr. simpl.
      apply (update_node_none q g) in Fa. rewrite Fa.
      apply update_node_none in Ea.
      apply (update_node_none p (insert0 (g c))) in Ea. rewrite Ea.
      rewrite (IHr r2 eq_refl Hr). reflexivity.
Qed.

Lemma update_inserted (p q : matcher) (g : node -> node) (c : node) (s s2 : soup) :
  matches q c = true -> find q s = None ->
  update_first p (insert0 c) s = Some s2 ->
  update_first q g s2 = update_first p (insert0 (g c)) s.
Proof.
  intros Hc. unfold update_first, find. revert s2.
  induction s as [|a r IHr]; simpl; [discriminate|].
  intros s2. destruct (find_node q a) as [m|] eqn:Fa; [discriminate|].
  destruct (update_node p (insert0 c) a) as [a2|] eqn:Ea.
  - intros Hr [= <-]. simpl.
    rewrite (update_inserted_node p q g c a a2 Hc Fa Ea).
    destruct (update_node p (insert0 (g c)) a) as [a3|] eqn:Ea3; [reflexivity|].
    apply update_node_none in Ea3.
    apply (update_node_none p (insert0 c)) in Ea3. congruence.
  - destruct (first_update (update_node p (insert0 c)) r) as [r2|] eqn:Er;
      simpl; [|discriminate].
    intros Hr [= <-]. simpl.
    apply (update_node_none q g) in Fa. rewrite Fa.
    apply update_node_none in Ea.
    apply (update_node_none p (insert0 (g c))) in Ea. rewrite Ea.
    rewrite (IHr r2 Hr eq_refl). reflexivity.
Qed.

(** Adding nodes never hides a match. *)
Lemma find_sub (p : matcher) :
  (forall n n', sub_node n n' -> find_node p n <> None -> find_node p n' <> None)
  /\ (forall s s', sub_soup s s' -> find p s <> None -> find p s' <> None).
Proof.
  unfold find. apply sub_mutind; simpl; auto.
  - intros nm attrs cs cs' _ IH.
    destruct (p nm attrs); [intros _; discriminate | exact IH].
  - intros n n' s s' _ IHn _ IHs.
    destruct (find_node p n) as [m|].
    + intros _. specialize (IHn ltac:(discriminate)).
      destruct (find_node p n'); [discriminate|congruence].
    + intros H. destruct (find_node p n'); [discriminate|auto].
  - intros n' s s' _ IHs H. destruct (find_node p n'); [discriminate|auto].
Qed.

Lemma find_matches (p : matcher) (n m : node) :
  find_node p n = Some m -> matches p m = true.
Proof.
  revert m.
  induction n as [s | s | nm attrs cs IH] using node_ind'; simpl; try discriminate.
  intros m. destruct (p nm attrs) eqn:Ep.
  - intros [= <-]. exact Ep.
  - induction IH as [|c r Hc _ IHr]; simpl; [discriminate|].
    destruct (find_node p c) as [mc|]; auto.
Qed.

Lemma find_first_matches (p : matcher) (s : soup) (m : node) :
  find p s = Some m -> matches p m = true.
Proof.
  unfold find. induction s as [|c r IHr]; simpl; [discriminate|].
  destruct (find_node p c) as [mc|] eqn:E; auto.
  intros [= <-]. eauto using find_matches.
Qed.

Lemma matches_by_name (tag : string) (m : node) :
  matches (by_name tag) m = true -> exists attrs cs, m = Elem tag attrs cs.
Proof.
  destruct m as [s | s | nm attrs cs]; simpl; try discriminate.
  unfold by_name. intros H. apply String.eqb_eq in H. subst. eauto.
Qed.

End DomFacts.

(** ** The style normalizer *)

Module StyleFacts.
Import Dom Effects Pipeline Spec Behaviour DomFacts.

Lemma insert0_keeps_tag (c : node) :
  forall nm attrs cs, exists cs', insert0 c (Elem nm attrs cs) = Elem nm attrs cs'.
Proof. intros; simpl; eauto. Qed.

Lemma append_keeps_tag (c : node) :
  forall nm attrs cs, exists cs', append c (Elem nm attrs cs) = Elem nm attrs cs'.
Proof. intros; simpl; eauto. Qed.

(** A tag inserted where nothing matched is the first match. *)
Lemma find_inserted_node (p q : matcher) (c n n2 : node) :
  matches q c = true -> find_node q n = None ->
  update_node p (insert0 c) n = Some n2 -> find_node q n2 = Some c.
Proof.
  intros Hc. revert n2.
  induction n as [s | s | nm attrs cs IH] using node_ind'; simpl; try discriminate.
  intros n2. destruct (q nm attrs) eqn:Eq; [discriminate|].
  intros Hnone. destruct (p nm attrs).
  - intros [= <-]. simpl. rewrite Eq.
    destruct c as [t | t | cn cattrs ccs]; simpl in *; try discriminate.
    rewrite Hc. reflexivity.
  - destruct (first_update (update_node p (insert0 c)) cs) as [cs2|] eqn:E;
      simpl; [|discriminate].
    intros [= <-]. simpl. rewrite Eq.
    revert cs2 E Hnone.
    induction IH as [|a r Ha _ IHr]; simpl; [discriminate|].
    intros cs2. destruct (find_node q a) as [m|] eqn:Fa; [discriminate|].
    destruct (update_node p (insert0 c) a) as [a2|].
    + intros [= <-] _. simpl. rewrite (Ha a2 eq_refl eq_refl). reflexivity.
    + destruct (first_update (update_node p (insert0 c)) r) as [r2|];
        simpl; [|discriminate].
      intros [= <-] Hr. simpl. rewrite Fa. auto.
Qed.

Lemma find_inserted (p q : matcher) (c : node) (s s2 : soup) :
  matches q c = true -> find q s = None ->
  update_first p (insert0 c) s = Some s2 -> find q s2 = Some c.
Proof.
  intros Hc. unfold update_first, find. revert s2.
  induction s as [|a r IHr]; simpl; [discriminate|].
  intros s2. destruct (find_node q a) as [m|] eqn:Fa; [discriminate|].
  destruct (update_node p (insert0 c) a) as [a2|] eqn:Ea.
  - intros _ [= <-]. simpl.
    rewrite (find_inserted_node p q c a a2 Hc Fa Ea). reflexivity.
  - destruct (first_update (update_node p (insert0 c)) r) as [r2|];
      simpl; [|discriminate].
    intros Hr [= <-]. simpl. rewrite Fa. auto.
Qed.

Lemma shell_has_html (s : soup) : exists h, find (by_name "html") (shell s) = Some h.
Proof.
  unfold shell. destruct (find (by_name "html") s) as [h|] eqn:E.
  - rewrite E. eauto.
  - exists html_tag. reflexivity.
Qed.

Lemma shell_head (s : soup) :
  find (by_name "head") (shell s) = find (by_name "head") s.
Proof.
  unfold shell. destruct (find (by_name "html") s); reflexivity.
Qed.

Lemma sub_shell (s : soup) : sub_soup s (shell s).
Proof.
  unfold shell. destruct (find (by_name "html") s).
  - apply sub_soup_refl.
  - apply sub_add, sub_soup_refl.
Qed.

(** The two ways [style_soup] ends: the style block goes to the first
    [head] of the document, or a new [head] with the style block becomes
    the first child of the first [html] tag. *)
Lemma style_soup_cases (s : soup) :
  (exists hd s3,
      find (by_name "head") (shell s) = Some hd
      /\ update_first (by_name "head") (append style_tag) (shell s) = Some s3
      /\ style_soup s = Ok s3)
  \/ (find (by_name "head") (shell s) = None
      /\ exists h s3,
          find (by_name "html") (shell s) = Some h
          /\ update_first (by_name "html") (insert0 head_styled) (shell s) = Some s3
          /\ style_soup s = Ok s3).
Proof.
  unfold style_soup. fold (shell s).
  destruct (find (by_name "head") (shell s)) as [hd|] eqn:Eh.
  - left.
    destruct (update_first (by_name "head") (append style_tag) (shell s)) as [s3|] eqn:E3.
    + eauto.
    + apply update_first_none in E3. congruence.
  - right. split; [reflexivity|].
    destruct (shell_has_html s) as [h Hh]. exists h.
    destruct (update_first (by_name "html") (insert0 head_tag) (shell s)) as [s2|] eqn:E2.
    2:{ apply update_first_none in E2. congruence. }
    rewrite (update_inserted (by_name "html") (by_name "head") (append style_tag)
               head_tag (shell s) s2 eq_refl Eh E2).
    change (append style_tag head_tag) with head_styled.
    destruct (update_first (by_name "html") (insert0 head_styled) (shell s)) as [s3|] eqn:E3.
    + eauto.
    + apply update_first_none in E3. congruence.
Qed.

Lemma style_soup_total (s : soup) : exists s3, style_soup s = Ok s3.
Proof.
  destruct (style_soup_cases s) as [(hd & s3 & _ & _ & H) | (_ & h & s3 & _ & _ & H)]; eauto.
Qed.

Lemma sub_shell_styled (s s3 : soup) : style_soup s = Ok s3 -> sub_soup (shell s) s3.
Proof.
  intros H.
  destruct (style_soup_cases s) as [(hd & s3' & _ & U & H') | (_ & h & s3' & _ & U & H')];
    rewrite H in H'; injection H' as <-.
  - eapply update_first_sub; [|exact U]. apply sub_append.
  - eapply update_first_sub; [|exact U]. apply sub_insert0.
Qed.

(** With no [html] tag in the input, the output starts with the new one
    and goes on with the input, which keeps all it had. *)
Lemma style_soup_new_root (s s3 : soup) :
  find (by_name "html") s = None -> style_soup s = Ok s3 ->
  exists cs rest, s3 = Elem "html" [] cs :: rest /\ sub_soup s rest.
Proof.
  intros Hn H.
  destruct (style_soup_cases s) as [(hd & s3' & _ & U & H') | (_ & h & s3' & _ & U & H')];
    rewrite H in H'; injection H' as <-; revert U; unfold shell; rewrite Hn;
    unfold update_first; simpl.
  - destruct (first_update (update_node (by_name "head") (append style_tag)) s)
      as [r|] eqn:E; simpl; [|discriminate].
    intros [= <-]. exists [], r. split; [reflexivity|].
    eapply update_first_sub; [|exact E]. apply sub_append.
  - intros [= <-]. exists [head_styled], s. split; [reflexivity|apply sub_soup_refl].
Qed.

Lemma sub_styled (s s3 : soup) : style_soup s = Ok s3 -> sub_soup s s3.
Proof.
  intros H. destruct (find (by_name "html") s) as [h|] eqn:E.
  - pose proof (sub_shell_styled s s3 H) as Hs. unfold shell in Hs.
    rewrite E in Hs. exact Hs.
  - destruct (style_soup_new_root s s3 E H) as (cs & rest & -> & Hr).
    apply sub_add, Hr.
Qed.

Lemma styled_has_html (s s3 : soup) :
  style_soup s = Ok s3 -> exists h, find (by_name "html") s3 = Some h.
Proof.
  intros H. destruct (shell_has_html s) as [h Hh].
  destruct (find (by_name "html") s3) as [h3|] eqn:E; [eauto|].
  exfalso. refine (proj2 (find_sub (by_name "html")) _ _ (sub_shell_styled s s3 H) _ E).
  congruence.
Qed.

(** The style block is the last child of the first [head]. *)
Lemma styled_head (s s3 : soup) :
  style_soup s = Ok s3 ->
  exists attrs cs, find (by_name "head") s3 = Some (Elem "head" attrs (cs ++ [style_tag])).
Proof.
  intros H.
  destruct (style_soup_cases s) as [(hd & s3' & F & U & H') | (F & h & s3' & _ & U & H')];
    rewrite H in H'; injection H' as <-.
  - rewrite (find_update_first _ _ (append_keeps_tag style_tag) _ _ _ U F).
    destruct (matches_by_name _ _ (find_first_matches _ _ _ F)) as (attrs & cs & ->).
    simpl. eauto.
  - rewrite (find_inserted (by_name "html") (by_name "head") head_styled _ _ eq_refl F U).
    exists [], []. reflexivity.
Qed.

(** With no [head] in the input, the new one is the first child of the
    first [html] tag. *)
Lemma styled_new_head (s s3 : soup) :
  find (by_name "head") s = None -> style_soup s = Ok s3 ->
  exists attrs cs,
    find (by_name "html") s3 = Some (Elem "html" attrs (head_styled :: cs)).
Proof.
  intros Hn H.
  destruct (style_soup_cases s) as [(hd & s3' & F & U & H') | (F & h & s3' & Fh & U & H')];
    rewrite H in H'; injection H' as <-.
  - rewrite shell_head in F. congruence.
  - rewrite (find_update_first _ _ (insert0_keeps_tag head_styled) _ _ _ U Fh).
    destruct (matches_by_name _ _ (find_first_matches _ _ _ Fh)) as (attrs & cs & ->).
    simpl. eauto.
Qed.

(** A second pass finds both tags and only appends its style block. *)
Lemma style_soup_again (s s3 : soup) :
  style_soup s = Ok s3 ->
  exists s4, style_soup s3 = Ok s4
             /\ update_first (by_name "head") (append style_tag) s3 = Some s4.
Proof.
  intros H.
  destruct (styled_has_html s s3 H) as [h Hh].
  destruct (styled_head s s3 H) as (attrs & cs & Hd).
  destruct (style_soup_cases s3) as [(hd & s4 & F & U & H') | (F & _)].
  - unfold shell in U. rewrite Hh in U. eauto.
  - unfold shell in F. rewrite Hh in F. congruence.
Qed.

(** Changing one tag changes the number of matches by what the change
    adds. *)
Lemma count_update_node (p q : matcher) (g : node -> node) (k : nat) (n n' : node) :
  (forall nm attrs cs,
      length (find_all_node q (g (Elem nm attrs cs)))
      = length (find_all_node q (Elem nm attrs cs)) + k) ->
  update_node p g n = Some n' ->
  length (find_all_node q n') = length (find_all_node q n) + k.
Proof.
  intros Hg. revert n'.
  induction n as [s | s | nm attrs cs IH] using node_ind'; simpl; try discriminate.
  intros n'. destruct (p nm attrs).
  - intros [= <-]. apply (Hg nm attrs cs).
  - destruct (first_update (update_node p g) cs) as [cs'|] eqn:E; simpl; [|discriminate].
    intros [= <-]. simpl. rewrite !length_app.
    enough (length (flat_map (find_all_node q) cs')
            = length (flat_map (find_all_node q) cs) + k)
      by (destruct (q nm attrs); simpl; lia).
    revert cs' E. induction IH as [|c r Hc _ IHr]; simpl; [discriminate|].
    intros cs'. destruct (update_node p g c) as [c'|].
    + intros [= <-]. simpl. rewrite !length_app, (Hc c' eq_refl). lia.
    + destruct (first_update (update_node p g) r) as [r'|]; simpl; [|discriminate].
      intros [= <-]. simpl. rewrite !length_app, (IHr r' eq_refl). lia.
Qed.

Lemma count_update_first (p q : matcher) (g : node -> node) (k : nat) (s s' : soup) :
  (forall nm attrs cs,
      length (find_all_node q (g (Elem nm attrs cs)))
      = length (find_all_node q (Elem nm attrs cs)) + k) ->
  update_first p g s = Some s' ->
  length (find_all q s') = length (find_all q s) + k.
Proof.
  intros Hg. unfold update_first, find_all. revert s'.
  induction s as [|c r IH]; simpl; [discriminate|].
  intros s'. destruct (update_node p g c) as [c'|] eqn:E.
  - intros [= <-]. simpl.
    rewrite !length_app, (count_update_node p q g k c c' Hg E). lia.
  - destruct (first_update (update_node p g) r) as [r'|]; simpl; [|discriminate].
    intros [= <-]. simpl. rewrite !length_app, (IH r' eq_refl). lia.
Qed.

Lemma count_append (q : matcher) (c : node) nm attrs cs :
  length (find_all_node q (append c (Elem nm attrs cs)))
  = length (find_all_node q (Elem nm attrs cs)) + length (find_all_node q c).
Proof.
  simpl. rewrite flat_map_app, !length_app. simpl. rewrite app_nil_r.
  destruct (q nm attrs); simpl; lia.
Qed.

Lemma count_insert0 (q : matcher) (c : node) nm attrs cs :
  length (find_all_node q (insert0 c (Elem nm attrs cs)))
  = length (find_all_node q (Elem nm attrs cs)) + length (find_all_node q c).
Proof. simpl. rewrite !length_app. destruct (q nm attrs); simpl; lia. Qed.

Lemma count_shell (tag : string) (s : soup) :
  count_tags tag (shell s)
  = count_tags tag s
    + match find (by_name "html") s with
      | Some _ => 0
      | None => if String.eqb "html" tag then 1 else 0
      end.
Proof.
  unfold shell, count_tags. destruct (find (by_name "html") s); [lia|].
  unfold find_all, html_tag. cbn [flat_map find_all_node]. unfold by_name at 1.
  destruct (String.eqb "html" tag); rewrite !length_app; cbn [length]; lia.
Qed.

(** What one pass adds: one [style] tag; an [html] tag and a [head] tag
    only where there was none. *)
Lemma style_soup_counts (s s3 : soup) :
  style_soup s = Ok s3 ->
  count_tags "style" s3 = S (count_tags "style" s)
  /\ count_tags "html" s3
     = count_tags "html" s
       + match find (by_name "html") s with Some _ => 0 | None => 1 end
  /\ count_tags "head" s3
     = count_tags "head" s
       + match find (by_name "head") s with Some _ => 0 | None => 1 end.
Proof.
  intros H.
  destruct (style_soup_cases s)
    as [(hd & s3' & F & U & H') | (F & h & s3' & _ & U & H')];
    rewrite H in H'; injection H' as <-; rewrite shell_head in F; rewrite F;
    unfold count_tags at 1 3 5.
  - rewrite !(count_update_first _ _ _ _ _ _
                (fun nm a cs => count_append _ style_tag nm a cs) U).
    fold (count_tags "style" (shell s)).
    fold (count_tags "html" (shell s)).
    fold (count_tags "head" (shell s)).
    rewrite !count_shell. simpl.
    destruct (find (by_name "html") s); repeat split; lia.
  - rewrite !(count_update_first _ _ _ _ _ _
                (fun nm a cs => count_insert0 _ head_styled nm a cs) U).
    fold (count_tags "style" (shell s)).
    fold (count_tags "html" (shell s)).
    fold (count_tags "head" (shell s)).
    rewrite !count_shell. simpl.
    destruct (find (by_name "html") s); repeat split; lia.
Qed.

(** The document [style_soup] returns, case by case: it is fixed by
    whether the input has an [html] tag and whether it has a [head]
    tag. *)
Lemma style_soup_exact (s s3 : soup) :
  style_soup s = Ok s3 ->
  (forall h hd,
      find (by_name "html") s = Some h -> find (by_name "head") s = Some hd ->
      update_first (by_name "head") (append style_tag) s = Some s3
      /\ find (by_name "head") s3 = Some (append style_tag hd))
  /\ (forall h,
        find (by_name "html") s = Some h -> find (by_name "head") s = None ->
        update_first (by_name "html") (insert0 head_styled) s = Some s3)
  /\ (forall hd,
        find (by_name "html") s = None -> find (by_name "head") s = Some hd ->
        exists rest,
          s3 = html_tag :: rest
          /\ update_first (by_name "head") (append style_tag) s = Some rest
          /\ find (by_name "head") s3 = Some (append style_tag hd))
  /\ (find (by_name "html") s = None -> find (by_name "head") s = None ->
      s3 = Elem "html" [] [head_styled] :: s).
Proof.
  intros H.
  destruct (style_soup_cases s)
    as [(hd' & s3' & F & U & H') | (F & h' & s3' & _ & U & H')];
    rewrite H in H'; injection H' as <-.
  - pose proof (find_update_first _ _ (append_keeps_tag style_tag) _ _ _ U F) as Fh.
    rewrite shell_head in F.
    split; [|split; [|split]].
    + intros h hd Hh Hd. unfold shell in U. rewrite Hh in U.
      split; [exact U|]. rewrite Fh. congruence.
    + intros h _ Hd. congruence.
    + intros hd Hh Hd. unfold shell in U. rewrite Hh in U.
      unfold update_first in U. simpl in U.
      destruct (first_update (update_node (by_name "head") (append style_tag)) s)
        as [rest|] eqn:E; simpl in U; [|discriminate].
      injection U as <-. exists rest.
      split; [reflexivity|]. split; [exact E|].
      rewrite Fh. congruence.
    + intros _ Hd. congruence.
  - rewrite shell_head in F.
    split; [|split; [|split]].
    + intros h hd _ Hd. congruence.
    + intros h Hh _. unfold shell in U. rewrite Hh in U. exact U.
    + intros hd _ Hd. congruence.
    + intros Hh _. unfold shell in U. rewrite Hh in U.
      unfold update_first in U. simpl in U. injection U as <-. reflexivity.
Qed.

End StyleFacts.

(** ** Lists and logs *)

Module LogFacts.
Import Dom Effects.

Lemma flat_map_flat_map {A B C} (f : B -> list C) (g : A -> list B) (l : list A) :
  flat_map f (flat_map g l) = flat_map (fun a => flat_map f (g a)) l.
Proof.
  induction l as [|a r IH]; simpl; [reflexivity|].
  rewrite flat_map_app, IH. reflexivity.
Qed.

Lemma flat_map_pointwise {A B} (f g : A -> list B) (l : list A) :
  Forall (fun a => f a = g a) l -> flat_map f l = flat_map g l.
Proof.
  induction 1 as [|a r Ha _ IH]; simpl; congruence.
Qed.

Lemma flat_log_split {A B E} (f : A -> list B * list E) (l : list A) :
  flat_log f l = (flat_map (fun a => fst (f a)) l, flat_map (fun a => snd (f a)) l).
Proof.
  induction l as [|a r IH]; simpl; [reflexivity|].
  rewrite IH. destruct (f a); reflexivity.
Qed.

Lemma map_log_split {A B E} (f : A -> B * list E) (l : list A) :
  map_log f l = (map (fun a => fst (f a)) l, flat_map (fun a => snd (f a)) l).
Proof.
  induction l as [|a r IH]; simpl; [reflexivity|].
  rewrite IH. destruct (f a); reflexivity.
Qed.

Lemma requests_app (e1 e2 : list event) :
  requests (e1 ++ e2) = requests e1 ++ requests e2.
Proof. apply flat_map_app. Qed.

Lemma warnings_app (e1 e2 : list event) :
  warnings (e1 ++ e2) = warnings e1 ++ warnings e2.
Proof. apply flat_map_app. Qed.

Lemma pictures_app (b1 b2 : list block) :
  pictures (b1 ++ b2) = pictures b1 ++ pictures b2.
Proof. apply filter_app. Qed.

(** In [flat_map f l], the only block of the element at position [i]
    comes right after the blocks of the elements before it. *)
Lemma flat_map_nth {A B} (f : A -> list B) (l : list A) (i : nat) (a : A) (b : B) :
  nth_error l i = Some a -> f a = [b] ->
  nth_error (flat_map f l) (length (flat_map f (firstn i l))) = Some b.
Proof.
  intros Hn Hb.
  destruct (nth_error_split l i Hn) as (l1 & l2 & -> & <-).
  rewrite firstn_app, Nat.sub_diag, firstn_all. simpl. rewrite app_nil_r.
  rewrite flat_map_app. simpl. rewrite Hb.
  rewrite nth_error_app2 by lia. rewrite Nat.sub_diag. reflexivity.
Qed.

Lemma flat_map_firstn_lt {A B} (f : A -> list B) (l : list A) (i j : nat) (a : A) (b : B) :
  i < j -> nth_error l i = Some a -> f a = [b] ->
  length (flat_map f (firstn i l)) < length (flat_map f (firstn j l)).
Proof.
  intros Hij Hn Hb.
  destruct (nth_error_split l i Hn) as (l1 & l2 & -> & <-).
  rewrite !firstn_app, Nat.sub_diag, firstn_all. simpl. rewrite app_nil_r.
  rewrite (firstn_all2 l1) by lia.
  destruct (j - length l1) as [|k] eqn:E; [lia|]. simpl.
  rewrite flat_map_app. simpl. rewrite Hb. rewrite !length_app. simpl. lia.
Qed.

Lemma prefix_app (a b : string) : String.prefix a (a ++ b) = true.
Proof.
  induction a as [|c a IH]; simpl; [destruct b; reflexivity|].
  destruct (ascii_dec c c); [exact IH | congruence].
Qed.

Lemma contains_prefix (u h : string) :
  String.prefix u h = true -> Spec.contains u h = true.
Proof.
  intros H. destruct h; cbn [Spec.contains]; rewrite H; reflexivity.
Qed.

(** A message built around a URL names it. *)
Lemma contains_middle (a u b : string) : Spec.contains u (a ++ u ++ b) = true.
Proof.
  induction a as [|c a IH]; simpl.
  - apply contains_prefix, prefix_app.
  - rewrite IH. apply orb_true_r.
Qed.

Lemma append_empty (s : string) : (s ++ "")%string = s.
Proof. induction s as [|c s IH]; simpl; congruence. Qed.

Lemma contains_end (a u : string) : Spec.contains u (a ++ u) = true.
Proof.
  rewrite <- (append_empty u) at 2. apply contains_middle.
Qed.

End LogFacts.

(** ** The block translator *)

Module TranslatorFacts.
Import Dom Effects Pipeline Spec LogFacts.

Section WithLibraries.
Variable parse : string -> Dom.soup.
Variable http_get : string -> response.
Variable urljoin : string -> string -> string.
Variable str_hasattr_name : bool.

Local Abbreviation own_blocks := (own_blocks http_get urljoin).
Local Abbreviation process_tag := (process_tag http_get urljoin).
Local Abbreviation process_children := (process_children http_get urljoin).
Local Abbreviation process_element := (process_element http_get urljoin).
Local Abbreviation process_body := (process_body http_get urljoin str_hasattr_name).
Local Abbreviation convert_to_docx := (convert_to_docx parse http_get urljoin str_hasattr_name).
Local Abbreviation item := (item http_get urljoin).
Local Abbreviation emitted := (emitted http_get urljoin).
Local Abbreviation logged := (logged http_get urljoin).
Local Abbreviation visited := (visited str_hasattr_name).
Local Abbreviation gets_through := (gets_through str_hasattr_name).

Lemma process_tag_unfold (base : string) (nm : string) attrs cs :
  process_tag base (Elem nm attrs cs)
  = (fst (own_blocks base (Elem nm attrs cs)) ++ fst (process_children base cs),
     snd (own_blocks base (Elem nm attrs cs)) ++ snd (process_children base cs)).
Proof.
  unfold Pipeline.process_children. cbn [Pipeline.process_tag].
  destruct (own_blocks base (Elem nm attrs cs)) as [b e].
  destruct (flat_log (child_blocks (process_tag base)) cs) as [bs es].
  reflexivity.
Qed.

Lemma process_children_split (base : string) (cs : list node) :
  process_children base cs
  = (flat_map (fun c => fst (child_blocks (process_tag base) c)) cs,
     flat_map (fun c => snd (child_blocks (process_tag base) c)) cs).
Proof. apply flat_log_split. Qed.

Lemma process_children_app (base : string) (l1 l2 : list node) :
  process_children base (l1 ++ l2)
  = (fst (process_children base l1) ++ fst (process_children base l2),
     snd (process_children base l1) ++ snd (process_children base l2)).
Proof.
  rewrite !process_children_split. simpl. rewrite !flat_map_app. reflexivity.
Qed.

Lemma process_children_cons (base : string) (c : node) (l : list node) :
  process_children base (c :: l)
  = (fst (child_blocks (process_tag base) c) ++ fst (process_children base l),
     snd (child_blocks (process_tag base) c) ++ snd (process_children base l)).
Proof. rewrite !process_children_split. reflexivity. Qed.

(** The walk visits the nodes in document order, each once, and adds for
    each what the node contributes by itself. *)
Lemma walk_preorder (base : string) (c : node) :
  child_blocks (process_tag base) c
  = (flat_map (emitted base) (preorder c), flat_map (logged base) (preorder c)).
Proof.
  induction c as [s | s | nm attrs cs IH] using node_ind'; try reflexivity.
  cbn [child_blocks]. rewrite process_tag_unfold, process_children_split.
  cbn [preorder flat_map fst snd]. rewrite !flat_map_flat_map.
  unfold Spec.emitted at 1, Spec.logged at 1. cbn [Spec.item].
  f_equal; f_equal; apply flat_map_pointwise;
    (eapply Forall_impl; [|exact IH]); intros a Ha; rewrite Ha; reflexivity.
Qed.

Lemma process_tag_preorder (base : string) (nm : string) attrs cs :
  process_tag base (Elem nm attrs cs)
  = (flat_map (emitted base) (preorder (Elem nm attrs cs)),
     flat_map (logged base) (preorder (Elem nm attrs cs))).
Proof. apply (walk_preorder base (Elem nm attrs cs)). Qed.

Lemma process_children_preorder (base : string) (cs : list node) :
  process_children base cs
  = (flat_map (emitted base) (flat_map preorder cs),
     flat_map (logged base) (flat_map preorder cs)).
Proof.
  rewrite process_children_split, !flat_map_flat_map.
  f_equal; apply flat_map_pointwise; apply Forall_forall; intros c _;
    rewrite walk_preorder; reflexivity.
Qed.

(** What one node requests, and how its pictures, warnings and requests
    add up. *)
Lemma item_requests (base : string) (n : node) :
  requests (logged base n) = map (urljoin base) (img_src n).
Proof.
  destruct n as [s | s | nm attrs cs]; try reflexivity.
  unfold Spec.logged, Spec.item, Pipeline.own_blocks, img_src.
  destruct (String.eqb nm "h1") eqn:E1;
    [apply String.eqb_eq in E1; subst; reflexivity|].
  destruct (String.eqb nm "h2") eqn:E2;
    [apply String.eqb_eq in E2; subst; reflexivity|].
  destruct (String.eqb nm "h3") eqn:E3;
    [apply String.eqb_eq in E3; subst; reflexivity|].
  destruct (String.eqb nm "p") eqn:E4;
    [apply String.eqb_eq in E4; subst; reflexivity|].
  destruct (String.eqb nm "img"); [|reflexivity].
  destruct (get_attr "src" attrs) as [src|]; [|reflexivity].
  destruct (nonempty src); [|reflexivity].
  destruct (http_get (urljoin base src)); reflexivity.
Qed.

Lemma item_balance (base : string) (n : node) :
  length (pictures (emitted base n)) + length (warnings (logged base n))
  = length (requests (logged base n)).
Proof.
  destruct n as [s | s | nm attrs cs]; try reflexivity.
  unfold Spec.emitted, Spec.logged, Spec.item, Pipeline.own_blocks.
  destruct (String.eqb nm "h1"); [reflexivity|].
  destruct (String.eqb nm "h2"); [reflexivity|].
  destruct (String.eqb nm "h3"); [reflexivity|].
  destruct (String.eqb nm "p"); [reflexivity|].
  destruct (String.eqb nm "img"); [|reflexivity].
  destruct (get_attr "src" attrs) as [src|]; [|reflexivity].
  destruct (nonempty src); [|reflexivity].
  destruct (http_get (urljoin base src)); reflexivity.
Qed.

Lemma walk_requests (base : string) (l : list node) :
  requests (flat_map (logged base) l) = map (urljoin base) (flat_map img_src l).
Proof.
  induction l as [|n r IH]; simpl; [reflexivity|].
  rewrite requests_app, map_app, item_requests, IH. reflexivity.
Qed.

Lemma walk_balance (base : string) (l : list node) :
  length (pictures (flat_map (emitted base) l))
  + length (warnings (flat_map (logged base) l))
  = length (requests (flat_map (logged base) l)).
Proof.
  induction l as [|n r IH]; simpl; [reflexivity|].
  rewrite pictures_app, warnings_app, requests_app, !length_app.
  pose proof (item_balance base n). lia.
Qed.

(** The loop over the children of the starting element. *)
Lemma process_body_events (base : string) (top : list node) :
  events (process_body base top)
  = flat_map (logged base) (flat_map preorder (visited top)).
Proof.
  induction top as [|n r IH]; [reflexivity|].
  destruct n as [s | s | nm attrs cs].
  - simpl. destruct str_hasattr_name; [reflexivity|exact IH].
  - simpl. destruct str_hasattr_name; [reflexivity|exact IH].
  - cbn [Pipeline.process_body Pipeline.hasattr_name Spec.visited
         Pipeline.process_element].
    rewrite process_tag_preorder.
    cbn [flat_map]. rewrite flat_map_app. rewrite <- IH.
    unfold events. destruct (process_body base r) as [e2 [bs|x]]; simpl;
      rewrite ?app_nil_r; reflexivity.
Qed.

Lemma process_body_value (base : string) (top : list node) :
  value (process_body base top)
  = if gets_through top
    then Ok (flat_map (emitted base) (document_order top))
    else Raise (AttributeError no_children_error).
Proof.
  unfold document_order, Spec.gets_through.
  induction top as [|n r IH]; [destruct str_hasattr_name; reflexivity|].
  destruct n as [s | s | nm attrs cs].
  - simpl. destruct str_hasattr_name; [reflexivity|exact IH].
  - simpl. destruct str_hasattr_name; [reflexivity|exact IH].
  - cbn [Pipeline.process_body Pipeline.hasattr_name Pipeline.process_element
         filter is_tag forallb andb].
    rewrite process_tag_preorder.
    cbn [flat_map]. rewrite flat_map_app.
    unfold value in *. destruct (process_body base r) as [e2 [bs|x]]; simpl in *;
      destruct (negb str_hasattr_name || forallb is_tag r); try discriminate.
    + injection IH as ->. reflexivity.
    + exact IH.
Qed.

Lemma try_except_events {A} (m : M A) (h : exn -> M A) :
  (forall x, requests (events (h x)) = []) ->
  requests (events (try_except m h)) = requests (events m).
Proof.
  intros Hh. destruct m as [e [a|x]]; simpl; [reflexivity|].
  specialize (Hh x). destruct (h x) as [e2 r]. simpl in *.
  rewrite requests_app, Hh, app_nil_r. reflexivity.
Qed.

(** Every request of the translation is an [img] reference joined to
    the base URL it was given. *)
Lemma convert_to_docx_requests (html base : string) :
  requests (events (convert_to_docx html base))
  = map (urljoin base)
      (flat_map img_src (flat_map preorder (visited (body_children (parse html))))).
Proof.
  unfold Pipeline.convert_to_docx.
  rewrite try_except_events by reflexivity.
  rewrite <- walk_requests, <- process_body_events.
  unfold events.
  destruct (process_body base (body_children (parse html))) as [e [bs|x]]; simpl;
    rewrite ?app_nil_r; reflexivity.
Qed.

Lemma convert_to_docx_value (html base : string) :
  value (convert_to_docx html base)
  = Ok (if gets_through (body_children (parse html))
        then Some (flat_map (emitted base)
                     (document_order (body_children (parse html))))
        else None).
Proof.
  pose proof (process_body_value base (body_children (parse html))) as Hv.
  unfold Pipeline.convert_to_docx, value in *.
  destruct (process_body base (body_children (parse html))) as [e [bs|x]];
    destruct (gets_through (body_children (parse html))); simpl in *;
    try discriminate; [injection Hv as ->|]; reflexivity.
Qed.
End WithLibraries.

End TranslatorFacts.

(** ** The asset inliner and the content selector *)

Module SelectorFacts.
Import Dom Effects Pipeline Spec DomFacts LogFacts.

Lemma select_first_match (soup : Dom.soup) :
  select_main_content soup = first_match soup.
Proof.
  unfold select_main_content, first_match, selector_table, or_else. simpl.
  destruct (find (by_name "main") soup); [reflexivity|].
  destruct (find (by_name "article") soup); [reflexivity|].
  destruct (find (by_token "div" "class" "main-content") soup); [reflexivity|].
  destruct (find (by_attr "div" "id" "main-content") soup); [reflexivity|].
  destruct (find (by_token "div" "class" "content") soup); [reflexivity|].
  destruct (find (by_attr "div" "id" "content") soup); [reflexivity|].
  destruct (find (by_token "div" "class" "primary-content") soup); reflexivity.
Qed.

Lemma sub_soup_app (s1 t1 s2 t2 : soup) :
  sub_soup s1 t1 -> sub_soup s2 t2 -> sub_soup (s1 ++ s2) (t1 ++ t2).
Proof.
  intros H1 H2. induction H1; simpl; auto using sub_keep, sub_add.
Qed.

Section Decompose.
Variable p : matcher.

(** Nothing that matches is left. *)
Lemma decompose_all_clean (n : node) :
  flat_map (find_all_node p) (decompose_all p n) = [].
Proof.
  induction n as [s | s | nm attrs cs IH] using node_ind'; try reflexivity.
  simpl. destruct (p nm attrs) eqn:Ep; [reflexivity|].
  simpl. rewrite Ep, app_nil_r. simpl.
  induction IH as [|c r Hc _ IHr]; simpl; [reflexivity|].
  rewrite flat_map_app, Hc, IHr. reflexivity.
Qed.

Lemma decompose_clean (cs : list node) :
  find_all p (flat_map (decompose_all p) cs) = [].
Proof.
  unfold find_all. induction cs as [|c r IH]; simpl; [reflexivity|].
  rewrite flat_map_app, decompose_all_clean, IH. reflexivity.
Qed.

(** What is left was there, in the same place. *)
Lemma decompose_all_sub (n : node) : sub_soup (decompose_all p n) [n].
Proof.
  induction n as [s | s | nm attrs cs IH] using node_ind';
    try (simpl; apply sub_soup_refl).
  simpl. destruct (p nm attrs).
  - apply sub_add, sub_nil.
  - apply sub_keep; [|apply sub_nil]. apply sub_elem.
    induction IH as [|c r Hc _ IHr]; simpl; [apply sub_nil|].
    apply (sub_soup_app _ [c] _ r); assumption.
Qed.

Lemma decompose_sub (cs : list node) : sub_soup (flat_map (decompose_all p) cs) cs.
Proof.
  induction cs as [|c r IH]; simpl; [apply sub_nil|].
  apply (sub_soup_app _ [c] _ r); [apply decompose_all_sub|exact IH].
Qed.

(** With no match there is nothing to remove. *)
Lemma decompose_all_id (n : node) :
  find_all_node p n = [] -> decompose_all p n = [n].
Proof.
  induction n as [s | s | nm attrs cs IH] using node_ind'; try reflexivity.
  simpl. destruct (p nm attrs); [discriminate|]. simpl.
  intros H. do 2 f_equal.
  induction IH as [|c r Hc _ IHr]; simpl in *; [reflexivity|].
  apply app_eq_nil in H. destruct H as [H1 H2].
  rewrite (Hc H1), (IHr H2). reflexivity.
Qed.

Lemma decompose_id (cs : list node) :
  find_all p cs = [] -> flat_map (decompose_all p) cs = cs.
Proof.
  unfold find_all. induction cs as [|c r IH]; simpl; [reflexivity|].
  intros H. apply app_eq_nil in H. destruct H as [H1 H2].
  rewrite (decompose_all_id c H1), (IH H2). reflexivity.
Qed.
End Decompose.

Section Inliner.
Variable serialize : Dom.soup -> string.
Variable http_get : string -> response.
Variable urljoin : string -> string -> string.

Local Abbreviation include_css_node := (include_css_node http_get urljoin).
Local Abbreviation include_css_soup := (include_css_soup http_get urljoin).
Local Abbreviation include_css := (include_css serialize http_get urljoin).

Lemma include_css_soup_split (soup : Dom.soup) (base : string) :
  include_css_soup soup base
  = (map (fun n => fst (include_css_node base n)) soup,
     flat_map (fun n => snd (include_css_node base n)) soup).
Proof. apply map_log_split. Qed.

Lemma include_css_soup_app (l1 l2 : Dom.soup) (base : string) :
  include_css_soup (l1 ++ l2) base
  = (fst (include_css_soup l1 base) ++ fst (include_css_soup l2 base),
     snd (include_css_soup l1 base) ++ snd (include_css_soup l2 base)).
Proof.
  rewrite !include_css_soup_split. simpl. rewrite map_app, flat_map_app. reflexivity.
Qed.

Lemma include_css_soup_cons (n : node) (l : Dom.soup) (base : string) :
  include_css_soup (n :: l) base
  = (fst (include_css_node base n) :: fst (include_css_soup l base),
     snd (include_css_node base n) ++ snd (include_css_soup l base)).
Proof. rewrite !include_css_soup_split. reflexivity. Qed.

Lemma include_css_node_unfold (base nm : string) attrs cs :
  include_css_node base (Elem nm attrs cs)
  = let cs' := fst (include_css_soup cs base) in
    let below := snd (include_css_soup cs base) in
    if stylesheet_link nm attrs then
      match get_attr "href" attrs with
      | Some href =>
          if nonempty href then
            let href :=
              if String.prefix "http" href then href else urljoin base href in
            match http_get href with
            | Body css =>
                (Elem "style" [("type", "text/css")] [Text css],
                 HttpGet href :: below)
            | RequestException e =>
                (Elem nm attrs cs',
                 HttpGet href :: StWarning (css_warning href e) :: below)
            end
          else (Elem nm attrs cs', below)
      | None => (Elem nm attrs cs', below)
      end
    else (Elem nm attrs cs', below).
Proof.
  unfold Pipeline.include_css_soup. cbn [Pipeline.include_css_node].
  destruct (map_log (include_css_node base) cs). reflexivity.
Qed.

(** A page without stylesheet links goes through unchanged and silent. *)
Lemma include_css_node_id (base : string) (n : node) :
  find_all_node stylesheet_link n = [] -> include_css_node base n = (n, []).
Proof.
  induction n as [s | s | nm attrs cs IH] using node_ind'; try reflexivity.
  rewrite include_css_node_unfold. simpl find_all_node.
  destruct (stylesheet_link nm attrs); [discriminate|]. simpl.
  intros H.
  assert (E : include_css_soup cs base = (cs, [])).
  { rewrite include_css_soup_split.
    induction IH as [|c r Hc _ IHr]; simpl in *; [reflexivity|].
    apply app_eq_nil in H. destruct H as [H1 H2].
    rewrite (Hc H1). simpl. specialize (IHr H2). injection IHr as -> ->.
    reflexivity. }
  rewrite E. reflexivity.
Qed.

Lemma include_css_soup_id (base : string) (soup : Dom.soup) :
  find_all stylesheet_link soup = [] -> include_css_soup soup base = (soup, []).
Proof.
  unfold find_all. rewrite include_css_soup_split.
  induction soup as [|c r IH]; simpl; [reflexivity|].
  intros H. apply app_eq_nil in H. destruct H as [H1 H2].
  rewrite (include_css_node_id base c H1). simpl.
  specialize (IH H2). injection IH as -> ->. reflexivity.
Qed.

(** The inliner shows warnings and nothing else. *)
Lemma include_css_node_quiet (base : string) (n : node) :
  downloaded (snd (include_css_node base n)) = [].
Proof.
  induction n as [s | s | nm attrs cs IH] using node_ind'; try reflexivity.
  rewrite include_css_node_unfold. cbv zeta.
  assert (E : downloaded (snd (include_css_soup cs base)) = []).
  { rewrite include_css_soup_split. simpl.
    induction IH as [|c r Hc _ IHr]; simpl; [reflexivity|].
    unfold downloaded in *. rewrite flat_map_app, Hc, IHr. reflexivity. }
  destruct (stylesheet_link nm attrs); [|exact E].
  destruct (get_attr "href" attrs) as [href|]; [|exact E].
  destruct (nonempty href); [|exact E].
  destruct (http_get (if String.prefix "http" href then href else urljoin base href));
    exact E.
Qed.

Lemma include_css_soup_quiet (base : string) (soup : Dom.soup) :
  downloaded (snd (include_css_soup soup base)) = [].
Proof.
  rewrite include_css_soup_split. simpl.
  induction soup as [|c r IH]; simpl; [reflexivity|].
  unfold downloaded in *. rewrite flat_map_app.
  fold (downloaded (snd (include_css_node base c))).
  rewrite include_css_node_quiet, IH. reflexivity.
Qed.

Lemma include_css_run (soup : Dom.soup) (base : string) :
  include_css soup base
  = (snd (include_css_soup soup base), Ok (serialize (fst (include_css_soup soup base)))).
Proof.
  unfold Pipeline.include_css. destruct (include_css_soup soup base) as [s' evs].
  simpl. rewrite app_nil_r. reflexivity.
Qed.
End Inliner.

End SelectorFacts.

(** ** The orchestrator *)

Module OrchestratorFacts.
Import Dom Effects Pipeline Spec LogFacts StyleFacts SelectorFacts TranslatorFacts.
Local Open Scope pipeline_scope.

Lemma returns_ret {A} (P : A -> Prop) (a : A) : P a -> returns P (ret a).
Proof. intros H. exists [], a. auto. Qed.

Lemma returns_bind {A B} (P : A -> Prop) (Q : B -> Prop) (m : M A) (k : A -> M B) :
  returns P m -> (forall a, P a -> returns Q (k a)) -> returns Q (bind m k).
Proof.
  intros (e & a & -> & Ha) Hk.
  destruct (Hk a Ha) as (e2 & b & E & Hb).
  exists (e ++ e2), b. simpl. rewrite E. auto.
Qed.

Lemma returns_tell (P : unit -> Prop) (evs : list event) : P tt -> returns P (tell evs).
Proof. intros H. exists evs, tt. auto. Qed.

Lemma bind_run {A B} (e : list event) (a : A) (k : A -> M B) :
  bind (e, Ok a) k = (e ++ events (k a), value (k a)).
Proof. simpl. destruct (k a). reflexivity. Qed.

Section WithLibraries.
Variable parse : string -> Dom.soup.
Variable serialize : Dom.soup -> string.
Variable http_get : string -> response.
Variable urljoin : string -> string -> string.
Variable str_hasattr_name : bool.
Variable write_pdf : string -> string + string.

Local Abbreviation fetch_webpage := (fetch_webpage http_get).
Local Abbreviation include_css := (include_css serialize http_get urljoin).
Local Abbreviation extract_main_content := (extract_main_content serialize).
Local Abbreviation style_html_content := (style_html_content parse serialize).
Local Abbreviation convert_to_docx :=
  (convert_to_docx parse http_get urljoin str_hasattr_name).
Local Abbreviation add_page := (add_page parse serialize http_get urljoin).
Local Abbreviation add_pages := (add_pages parse serialize http_get urljoin).
Local Abbreviation generate :=
  (generate parse http_get urljoin str_hasattr_name write_pdf).
Local Abbreviation main :=
  (main parse serialize http_get urljoin str_hasattr_name write_pdf).
Local Abbreviation usable := (usable http_get).
Local Abbreviation last_success := (last_success http_get).

Lemma include_css_returns (soup : Dom.soup) (base : string) :
  returns (fun _ => True) (include_css soup base).
Proof. rewrite include_css_run. eexists _, _. eauto. Qed.

Lemma extract_main_content_returns (soup : Dom.soup) :
  returns (fun _ => True) (extract_main_content soup).
Proof.
  unfold Pipeline.extract_main_content.
  destruct (select_main_content soup); [apply returns_ret; exact I|].
  eexists _, _. split; [reflexivity|exact I].
Qed.

(** [style_html_content] never reaches into [None]. *)
Lemma style_html_content_returns (html : string) :
  returns (fun _ => True) (style_html_content html).
Proof.
  unfold Pipeline.style_html_content.
  destruct (style_soup_total (parse html)) as [s3 ->].
  apply returns_ret. exact I.
Qed.

Lemma fetch_webpage_returns (url : string) :
  returns
    (fun o => o = match http_get url with
                  | Body text => Some text
                  | RequestException _ => None
                  end)
    (fetch_webpage url).
Proof.
  unfold Pipeline.fetch_webpage.
  destruct (http_get url); eexists _, _; split; reflexivity.
Qed.

(** A usable page sets [base_url]; any other page leaves it alone. *)
Lemma add_page_base (url : string) (state : string * option string) :
  returns
    (fun state' =>
       snd state' = if usable url then Some (urljoin url "/") else snd state)
    (add_page url state).
Proof.
  unfold Pipeline.add_page, Spec.usable.
  destruct state as [combined base].
  destruct (nonempty url); [|apply returns_ret; reflexivity].
  eapply returns_bind; [apply fetch_webpage_returns|].
  intros o ->. cbn [andb].
  destruct (http_get url) as [text | err].
  - destruct (nonempty text).
    + eapply returns_bind; [apply include_css_returns|]. intros css _.
      eapply returns_bind; [apply extract_main_content_returns|]. intros mc _.
      eapply returns_bind.
      { destruct (nonempty mc); apply style_html_content_returns. }
      intros st _. apply returns_ret. reflexivity.
    + eexists _, _. split; reflexivity.
  - eexists _, _. split; reflexivity.
Qed.

(** After the loop, [base_url] is the root of the last usable URL. *)
Lemma add_pages_base (urls : list string) (state : string * option string) :
  returns
    (fun state' =>
       snd state' = match last_success urls with
                    | Some u => Some (urljoin u "/")
                    | None => snd state
                    end)
    (add_pages urls state).
Proof.
  revert state. induction urls as [|u r IH]; intros state.
  - apply returns_ret. reflexivity.
  - cbn [Pipeline.add_pages Spec.last_success].
    eapply returns_bind; [apply add_page_base|].
    intros state' Hs.
    destruct (IH state') as (e & st2 & E & H2).
    exists e, st2. split; [exact E|].
    rewrite H2, Hs. destruct (last_success r); [reflexivity|].
    destruct (usable u); reflexivity.
Qed.

Lemma convert_to_docx_returns (html base : string) :
  returns (fun _ => True) (convert_to_docx html base).
Proof.
  unfold Pipeline.convert_to_docx.
  destruct (process_body http_get urljoin str_hasattr_name base
              (body_children (parse html))) as [e [bs|x]];
    simpl; eexists _, _; eauto.
Qed.

(** What [main] requests after the loop, on the DOCX path. *)
Lemma generate_docx_requests (combined base : string) :
  returns (fun _ => True) (generate DOCX (combined, Some base))
  /\ requests (events (generate DOCX (combined, Some base)))
     = if nonempty combined
       then requests (events (convert_to_docx combined base))
       else [].
Proof.
  unfold Pipeline.generate.
  destruct (nonempty combined).
  2:{ split; [|reflexivity]. apply returns_tell. exact I. }
  destruct (convert_to_docx_returns combined base) as (e & o & E & _).
  rewrite E. simpl.
  destruct o as [blocks|]; simpl;
    (split; [eexists _, _; split; [reflexivity|exact I]|]);
    rewrite requests_app; simpl; rewrite app_nil_r; reflexivity.
Qed.
End WithLibraries.

End OrchestratorFacts.

(** ** The claims about the style normalizer and the content selector *)

Module NormalizerClaims.
Import Dom Effects Pipeline Spec Behaviour DomFacts StyleFacts SelectorFacts.
Local Open Scope pipeline_scope.

(** C2, as stated, fails: for the input [<div><head></head></div>] the
    output has an [html] root, but its [head] stays inside the [div]; the
    [html] root has no [head] child.  For [<div><html></html></div>] the
    [html] tag stays inside the [div]: the output has no [html] root. *)
Lemma style_html_content_stray_head :
  (exists out,
      style_html_content MiniSoup.parse MiniSoup.serialize Examples.stray_head_html
      = ([], Ok out)
      /\ MiniSoup.parse Examples.stray_head_html = [Elem "div" [] [Elem "head" [] []]]
      /\ MiniSoup.parse out
         = [Elem "html" [] []; Elem "div" [] [Elem "head" [] [style_tag]]]
      /\ has_root "html" (MiniSoup.parse out) = true
      /\ html_root_has_head (MiniSoup.parse out) = false)
  /\ (exists out,
        style_html_content MiniSoup.parse MiniSoup.serialize Examples.nested_html
        = ([], Ok out)
        /\ MiniSoup.parse out
           = [Elem "div" [] [Elem "html" [] [Elem "head" [] [style_tag]]]]
        /\ has_root "html" (MiniSoup.parse out) = false).
Proof.
  split; eexists; (split; [vm_compute; reflexivity|]);
    repeat split; vm_compute; reflexivity.
Qed.

(** C2 (amended). For every input HTML string, [style_html_content] ends
    without an exception and without a message, and returns the
    serialization of a document that contains an [html] tag and a [head]
    tag somewhere; the style block is the last child of the first [head]
    of the document.  An [html] tag is put in, empty and as the first
    child of the document, only when the input has none anywhere; a
    [head] tag is put in, as the first child of the first [html] tag, only
    when the input has none anywhere; a [head] that is not under the
    [html] tag is used as it is found, and the [html] tag then gets no
    [head] child.  One [style] tag is added and nothing else: the output
    is fixed, case by case, by these rules.  The style block defines the
    font family and line height of the body, bold weight for the six
    heading levels, centered images at 70% of the width, and justified
    paragraphs.  Every node of the parsed input is in the output,
    unchanged and in place. *)
Theorem style_html_content_shell
  (parse : string -> soup) (serialize : soup -> string) (html : string) :
  exists soup',
    style_html_content parse serialize html = ([], Ok (serialize soup'))
    /\ (exists h, find (by_name "html") soup' = Some h)
    /\ (exists attrs cs,
           find (by_name "head") soup' = Some (Elem "head" attrs (cs ++ [style_tag])))
    /\ (find (by_name "html") (parse html) = None ->
        exists cs rest,
          soup' = Elem "html" [] cs :: rest /\ sub_soup (parse html) rest)
    /\ (find (by_name "head") (parse html) = None ->
        exists attrs cs,
          find (by_name "html") soup'
          = Some (Elem "html" attrs (Elem "head" [] [style_tag] :: cs)))
    /\ sub_soup (parse html) soup'
    /\ style_tag = Elem "style" [] [Text style_css]
    /\ baseline_rules style_css = true
    /\ count_tags "style" soup' = S (count_tags "style" (parse html))
    /\ count_tags "html" soup'
       = count_tags "html" (parse html)
         + match find (by_name "html") (parse html) with Some _ => 0 | None => 1 end
    /\ count_tags "head" soup'
       = count_tags "head" (parse html)
         + match find (by_name "head") (parse html) with Some _ => 0 | None => 1 end
    /\ (forall h hd,
          find (by_name "html") (parse html) = Some h ->
          find (by_name "head") (parse html) = Some hd ->
          update_first (by_name "head") (append style_tag) (parse html) = Some soup'
          /\ find (by_name "head") soup' = Some (append style_tag hd))
    /\ (forall h,
          find (by_name "html") (parse html) = Some h ->
          find (by_name "head") (parse html) = None ->
          update_first (by_name "html") (insert0 (Elem "head" [] [style_tag]))
            (parse html) = Some soup')
    /\ (forall hd,
          find (by_name "html") (parse html) = None ->
          find (by_name "head") (parse html) = Some hd ->
          exists rest,
            soup' = Elem "html" [] [] :: rest
            /\ update_first (by_name "head") (append style_tag) (parse html) = Some rest
            /\ find (by_name "head") soup' = Some (append style_tag hd))
    /\ (find (by_name "html") (parse html) = None ->
        find (by_name "head") (parse html) = None ->
        soup' = Elem "html" [] [Elem "head" [] [style_tag]] :: parse html).
Proof.
  destruct (style_soup_total (parse html)) as [s3 H].
  exists s3. unfold style_html_content. rewrite H.
  split; [reflexivity|].
  split; [eapply styled_has_html; eassumption|].
  split; [eapply styled_head; eassumption|].
  split; [intros Hn; eapply style_soup_new_root; eassumption|].
  split; [intros Hn; eapply styled_new_head; eassumption|].
  split; [apply sub_styled; assumption|].
  split; [reflexivity|].
  split; [vm_compute; reflexivity|].
  destruct (style_soup_counts _ _ H) as (C1 & C2 & C3).
  split; [exact C1|]. split; [exact C2|]. split; [exact C3|].
  exact (style_soup_exact _ _ H).
Qed.

(** C9. Applying [style_html_content] to its own output (when the first
    output reads back as the document it was written from) ends without
    an exception; every node of the first output is in the second one,
    unchanged and in place; the second pass adds no [html] and no [head]
    and only appends one more style block to the first [head]. *)
Theorem style_html_content_twice
  (parse : string -> soup) (serialize : soup -> string) (html : string)
  (soup1 : soup) :
  style_soup (parse html) = Ok soup1 ->
  parse (serialize soup1) = soup1 ->
  exists soup2,
    (once <- style_html_content parse serialize html ;;
     style_html_content parse serialize once) = ([], Ok (serialize soup2))
    /\ sub_soup soup1 soup2
    /\ update_first (by_name "head") (append style_tag) soup1 = Some soup2
    /\ exists attrs cs,
        find (by_name "head") soup1 = Some (Elem "head" attrs (cs ++ [style_tag]))
        /\ find (by_name "head") soup2
           = Some (Elem "head" attrs ((cs ++ [style_tag]) ++ [style_tag])).
Proof.
  intros H1 Hrt.
  destruct (style_soup_again _ _ H1) as (soup2 & H2 & U).
  exists soup2. unfold style_html_content. rewrite H1. simpl.
  rewrite Hrt, H2. split; [reflexivity|].
  split; [apply sub_styled; assumption|].
  split; [assumption|].
  destruct (styled_head _ _ H1) as (attrs & cs & F).
  exists attrs, cs. split; [assumption|].
  rewrite (find_update_first _ _ (append_keeps_tag style_tag) _ _ _ U F).
  reflexivity.
Qed.

Lemma style_html_content_twice_witness :
  exists soup1 soup2,
    style_soup (MiniSoup.parse Examples.page_title) = Ok soup1
    /\ MiniSoup.parse (MiniSoup.serialize soup1) = soup1
    /\ (once <- style_html_content MiniSoup.parse MiniSoup.serialize Examples.page_title ;;
        style_html_content MiniSoup.parse MiniSoup.serialize once)
       = ([], Ok (MiniSoup.serialize soup2))
    /\ sub_soup soup1 soup2.
Proof.
  set (soup1 := match style_soup (MiniSoup.parse Examples.page_title) with
                | Ok s => s
                | Raise _ => []
                end).
  assert (H1 : style_soup (MiniSoup.parse Examples.page_title) = Ok soup1)
    by (vm_compute; reflexivity).
  assert (Hrt : MiniSoup.parse (MiniSoup.serialize soup1) = soup1)
    by (vm_compute; reflexivity).
  destruct (style_html_content_twice MiniSoup.parse MiniSoup.serialize
              Examples.page_title soup1 H1 Hrt) as (soup2 & E & S & _).
  exists soup1, soup2. repeat split; assumption.
Defined.

(** C3. The content selector takes the first match of the table [main],
    [article], [div.main-content], [div#main-content], [div.content],
    [div#content], [div.primary-content], in that order; a [main] tag wins
    whatever else the page holds.  Of the region found, no [nav],
    [header], [footer] or [aside] below it is left, and what is left was
    in the region, unchanged and in place.  When nothing matches, the
    whole document is returned as it is, with the fallback warning. *)
Theorem extract_main_content_priority (serialize : soup -> string) (soup : Dom.soup) :
  extract_main_content serialize soup
  = match first_match soup with
    | Some region => ([], Ok (serialize [decompose_in chrome region]))
    | None => ([StWarning fallback_warning], Ok (serialize soup))
    end
  /\ (forall region,
        first_match soup = Some region ->
        find_all (by_names ["nav"; "header"; "footer"; "aside"])
          (children (decompose_in chrome region)) = []
        /\ sub_soup [decompose_in chrome region] [region]
        /\ (find_all chrome (children region) = [] ->
            decompose_in chrome region = region))
  /\ (forall m, find (by_name "main") soup = Some m -> first_match soup = Some m)
  /\ (forall a,
        find (by_name "main") soup = None ->
        find (by_name "article") soup = Some a -> first_match soup = Some a).
Proof.
  split; [|split; [|split]].
  - unfold extract_main_content. rewrite select_first_match.
    destruct (first_match soup); reflexivity.
  - intros region _. destruct region as [s | s | nm attrs cs]; simpl.
    + repeat split; auto using sub_soup_refl.
    + repeat split; auto using sub_soup_refl.
    + split; [|split].
      * pose proof (decompose_clean chrome cs) as H.
        unfold find_all in *.
        erewrite flat_map_ext; [exact H|].
        intros n. clear. 
        induction n as [s | s | nm attrs cs IH] using node_ind'; try reflexivity.
        simpl. f_equal.
        -- unfold chrome, by_names. simpl.
           destruct (String.eqb nm "nav"), (String.eqb nm "header"),
             (String.eqb nm "footer"), (String.eqb nm "aside"); reflexivity.
        -- induction IH as [|c r Hc _ IHr]; simpl; congruence.
      * apply sub_keep; [|apply sub_nil]. apply sub_elem, decompose_sub.
      * intros H. rewrite (decompose_id chrome cs H). reflexivity.
  - intros m H. unfold first_match, selector_table. simpl. rewrite H. reflexivity.
  - intros a Hm H. unfold first_match, selector_table. simpl. rewrite Hm, H. reflexivity.
Qed.

End NormalizerClaims.

(** ** The claims about the block translator *)

Module TranslatorClaims.
Import Dom Effects Pipeline Spec LogFacts TranslatorFacts.

(** C4, as stated, fails for the starting element: text that is a direct
    child of the body is never made a paragraph.  The loop over the
    children of the body only passes on what has a [name]; a string is
    skipped, or (where bs4 strings have a [name]) stops the translation
    with an error. *)
Lemma body_text_not_emitted :
  body_children (MiniSoup.parse Examples.loose_html)
  = [Text "loose text"; Elem "p" [] [Text "para"]]
  /\ Examples.to_docx false Examples.loose_html "http://x.example/"
     = ([], Ok (Some [Paragraph "para"; Paragraph "para"]))
  /\ Examples.to_docx true Examples.loose_html "http://x.example/"
     = ([StError ("Failed to generate DOCX: " ++ no_children_error)], Ok None).
Proof. repeat split; vm_compute; reflexivity. Qed.

Section Walk.
Variable http_get : string -> response.
Variable urljoin : string -> string -> string.

Local Abbreviation own_blocks := (own_blocks http_get urljoin).
Local Abbreviation process_tag := (process_tag http_get urljoin).
Local Abbreviation process_children := (process_children http_get urljoin).
Local Abbreviation process_element := (process_element http_get urljoin).

(** C4 (amended). Every text node that is a direct child of a tag
    processed by [process_element] becomes a paragraph with the text of
    the node as it is, blank or not, at the place of the node among the
    blocks of its siblings.  The strings among the children of the
    starting element add no block: the output, when there is one, is what
    the tags among them add. *)
Theorem text_children_become_paragraphs
  (str_hasattr_name : bool)
  (base nm : string) (attrs : list (string * string)) (l1 l2 : list node)
  (s : string) :
  fst (process_tag base (Elem nm attrs (l1 ++ Text s :: l2)))
  = fst (own_blocks base (Elem nm attrs (l1 ++ Text s :: l2)))
    ++ fst (process_children base l1)
    ++ Paragraph s :: fst (process_children base l2)
  /\ fst (process_children base [Text "   "]) = [Paragraph "   "]
  /\ forall top,
      value (process_body http_get urljoin str_hasattr_name base top)
      = if gets_through str_hasattr_name top
        then Ok (fst (process_children base (filter is_tag top)))
        else Raise (AttributeError no_children_error).
Proof.
  split; [|split].
  - rewrite process_tag_unfold, process_children_app, process_children_cons.
    reflexivity.
  - reflexivity.
  - intros top. rewrite process_body_value, process_children_preorder.
    reflexivity.
Qed.

(** C10. An [h4], [h5] or [h6] tag adds no block of its own: what it
    adds is what its children add, and every text node below it is a
    paragraph of the output. *)
Theorem minor_headings_become_paragraphs
  (base nm : string) (attrs : list (string * string)) (cs : list node) :
  In nm ["h4"; "h5"; "h6"] ->
  own_blocks base (Elem nm attrs cs) = ([], [])
  /\ process_tag base (Elem nm attrs cs) = process_children base cs
  /\ (forall lvl, ~ In (Heading lvl (get_text (Elem nm attrs cs)))
                    (fst (own_blocks base (Elem nm attrs cs))))
  /\ (forall s, In (Text s) (flat_map preorder cs) ->
                In (Paragraph s) (fst (process_tag base (Elem nm attrs cs)))).
Proof.
  intros Hn.
  assert (Hown : own_blocks base (Elem nm attrs cs) = ([], [])).
  { simpl in Hn. destruct Hn as [<- | [<- | [<- | []]]]; reflexivity. }
  split; [exact Hown|]. split; [|split].
  - rewrite process_tag_unfold, Hown. simpl.
    destruct (process_children base cs). reflexivity.
  - intros lvl. rewrite Hown. simpl. tauto.
  - intros s Hs. rewrite process_tag_unfold, Hown, process_children_preorder.
    simpl. apply in_flat_map. exists (Text s). split; [exact Hs|].
    left. reflexivity.
Qed.

(** C7. When the bytes of an image cannot be fetched, the [img] tag adds
    no picture, one request and one warning that names the URL; its
    siblings before and after it are processed as they would be without
    it, and no exception is raised.  Over a whole subtree the pictures and
    the warnings together are as many as the images requested: one
    picture less for each failure. *)
Theorem failed_image_is_skipped
  (base src err : string) (attrs : list (string * string))
  (cs l1 l2 : list node) :
  get_attr "src" attrs = Some src ->
  nonempty src = true ->
  http_get (urljoin base src) = RequestException err ->
  let img := Elem "img" attrs cs in
  let url := urljoin base src in
  own_blocks base img = ([], [HttpGet url; StWarning (image_warning url err)])
  /\ contains url (image_warning url err) = true
  /\ process_children base (l1 ++ img :: l2)
     = (fst (process_children base l1) ++ fst (process_children base cs)
          ++ fst (process_children base l2),
        snd (process_children base l1)
          ++ [HttpGet url; StWarning (image_warning url err)]
          ++ snd (process_children base cs) ++ snd (process_children base l2))
  /\ value (process_element base img) = Ok (fst (process_children base cs))
  /\ (forall el,
        length (pictures (fst (process_tag base el)))
        + image_failures (snd (process_tag base el))
        = length (requests (snd (process_tag base el)))).
Proof.
  intros Hsrc Hne Hget. cbv zeta.
  assert (Hown : own_blocks base (Elem "img" attrs cs)
                 = ([], [HttpGet (urljoin base src);
                         StWarning (image_warning (urljoin base src) err)])).
  { unfold Pipeline.own_blocks. simpl. rewrite Hsrc, Hne, Hget. reflexivity. }
  split; [exact Hown|].
  split; [apply contains_middle|].
  split; [|split].
  - rewrite process_children_app, process_children_cons.
    cbn [child_blocks]. rewrite process_tag_unfold, Hown.
    reflexivity.
  - unfold Pipeline.process_element. rewrite process_tag_unfold, Hown.
    reflexivity.
  - intros el. unfold image_failures.
    destruct el as [s | s | nm attrs' cs']; try reflexivity.
    rewrite process_tag_preorder. cbn [fst snd].
    pose proof (walk_balance http_get urljoin base (preorder (Elem nm attrs' cs'))).
    lia.
Qed.

End Walk.

Section WithLibraries.
Variable parse : string -> Dom.soup.
Variable http_get : string -> response.
Variable urljoin : string -> string -> string.
Variable str_hasattr_name : bool.

Local Abbreviation convert_to_docx :=
  (convert_to_docx parse http_get urljoin str_hasattr_name).
Local Abbreviation emitted := (emitted http_get urljoin).
Local Abbreviation block_index := (block_index http_get urljoin).

(** C6. The output of the translation is made of the blocks of the nodes
    of the walk in document order (and there is an output unless a string
    among the children of the starting element stops the walk): for two
    nodes at positions [i < j] in document order that add one block each,
    the block of the first is in that sequence before the block of the
    second. *)
Theorem blocks_follow_document_order
  (html base : string) (i j : nat) (ni nj : node) (bi bj : block) :
  let nodes := document_order (body_children (parse html)) in
  let blocks := flat_map (emitted base) nodes in
  i < j ->
  nth_error nodes i = Some ni -> nth_error nodes j = Some nj ->
  emitted base ni = [bi] -> emitted base nj = [bj] ->
  value (convert_to_docx html base)
  = Ok (if gets_through str_hasattr_name (body_children (parse html))
        then Some blocks else None)
  /\ nth_error blocks (block_index base nodes i) = Some bi
  /\ nth_error blocks (block_index base nodes j) = Some bj
  /\ block_index base nodes i < block_index base nodes j.
Proof.
  intros nodes blocks Hij Hi Hj Hbi Hbj.
  split; [apply convert_to_docx_value|].
  unfold Spec.block_index, blocks.
  split; [eapply flat_map_nth; eassumption|].
  split; [eapply flat_map_nth; eassumption|].
  eapply flat_map_firstn_lt; eassumption.
Qed.
End WithLibraries.

Lemma minor_headings_become_paragraphs_witness :
  process_tag Examples.web MiniSoup.urljoin "http://a.example/"
    (Elem "h4" [] [Text "Minor"; Elem "b" [] [Text "bold"]])
  = ([Paragraph "Minor"; Paragraph "bold"], []).
Proof.
  destruct (minor_headings_become_paragraphs Examples.web MiniSoup.urljoin
              "http://a.example/" "h4" [] [Text "Minor"; Elem "b" [] [Text "bold"]])
    as (_ & E & _).
  - simpl. tauto.
  - rewrite E. reflexivity.
Defined.

Lemma failed_image_is_skipped_witness :
  process_children Examples.web MiniSoup.urljoin "http://b.example/"
    ([Elem "h1" [] []] ++ Elem "img" [("src", "/pic.png")] []
       :: [Elem "img" [("src", "/logo.png")] []])
  = ([Heading 1 ""; Picture "PNG" 4],
     [HttpGet "http://b.example/pic.png";
      StWarning (image_warning "http://b.example/pic.png" Examples.not_found);
      HttpGet "http://b.example/logo.png"]).
Proof.
  destruct (failed_image_is_skipped Examples.web MiniSoup.urljoin
              "http://b.example/" "/pic.png" Examples.not_found
              [("src", "/pic.png")] [] [Elem "h1" [] []]
              [Elem "img" [("src", "/logo.png")] []])
    as (_ & _ & E & _).
  - reflexivity.
  - reflexivity.
  - vm_compute. reflexivity.
  - rewrite E. vm_compute. reflexivity.
Defined.

Lemma blocks_follow_document_order_witness :
  value (Examples.to_docx true Examples.page_two "http://b.example/")
  = Ok (Some [Picture "PNG" 4; Paragraph "Two"; Paragraph "Two"])
  /\ block_index Examples.web MiniSoup.urljoin "http://b.example/"
       (document_order (body_children (MiniSoup.parse Examples.page_two))) 1 = 0
  /\ block_index Examples.web MiniSoup.urljoin "http://b.example/"
       (document_order (body_children (MiniSoup.parse Examples.page_two))) 2 = 1.
Proof.
  destruct (blocks_follow_document_order MiniSoup.parse Examples.web MiniSoup.urljoin
              true Examples.page_two "http://b.example/" 1 2
              (Elem "img" [("src", "/logo.png")] []) (Elem "p" [] [Text "Two"])
              (Picture "PNG" 4) (Paragraph "Two"))
    as (Hv & _ & _ & _).
  - lia.
  - vm_compute. reflexivity.
  - vm_compute. reflexivity.
  - vm_compute. reflexivity.
  - vm_compute. reflexivity.
  - split; [|split; vm_compute; reflexivity].
    unfold Examples.to_docx. rewrite Hv. vm_compute. reflexivity.
Defined.

End TranslatorClaims.

(** ** The claims about the asset inliner and the orchestrator *)

Module OrchestratorClaims.
Import Dom Effects Pipeline Spec LogFacts SelectorFacts TranslatorFacts
  OrchestratorFacts.
Local Open Scope pipeline_scope.

(** C8. A stylesheet link whose fetch fails stays where it is, with one
    request and one warning that names the reference; a link whose fetch
    succeeds is replaced, where it is, by a [style] tag with the fetched
    text as it came.  In both cases the links before it and after it are
    handled as they would be without it, and [include_css] ends without
    an exception.  A tag that is no stylesheet link is kept, and the links
    below it are handled in the same way. *)
Theorem failed_stylesheet_is_local
  (serialize : soup -> string) (http_get : string -> response)
  (urljoin : string -> string -> string)
  (base nm : string) (attrs : list (string * string)) (cs l1 l2 : list node)
  (href : string) :
  stylesheet_link nm attrs = true ->
  get_attr "href" attrs = Some href ->
  nonempty href = true ->
  let url := if String.prefix "http" href then href else urljoin base href in
  let r1 := include_css_soup http_get urljoin l1 base in
  let rc := include_css_soup http_get urljoin cs base in
  let r2 := include_css_soup http_get urljoin l2 base in
  (forall err,
      http_get url = RequestException err ->
      include_css_soup http_get urljoin (l1 ++ Elem nm attrs cs :: l2) base
      = (fst r1 ++ Elem nm attrs (fst rc) :: fst r2,
         snd r1 ++ [HttpGet url; StWarning (css_warning url err)] ++ snd rc ++ snd r2)
      /\ contains url (css_warning url err) = true)
  /\ (forall css,
        http_get url = Body css ->
        include_css_soup http_get urljoin (l1 ++ Elem nm attrs cs :: l2) base
        = (fst r1 ++ Elem "style" [("type", "text/css")] [Text css] :: fst r2,
           snd r1 ++ [HttpGet url] ++ snd rc ++ snd r2))
  /\ value (include_css serialize http_get urljoin (l1 ++ Elem nm attrs cs :: l2) base)
     = Ok (serialize
             (fst (include_css_soup http_get urljoin (l1 ++ Elem nm attrs cs :: l2) base)))
  /\ (forall nm' attrs' cs',
        stylesheet_link nm' attrs' = false ->
        include_css_node http_get urljoin base (Elem nm' attrs' cs')
        = (Elem nm' attrs' (fst (include_css_soup http_get urljoin cs' base)),
           snd (include_css_soup http_get urljoin cs' base))).
Proof.
  intros Hlink Hhref Hne. cbv zeta.
  split; [|split; [|split]]; cycle 3.
  { intros nm' attrs' cs' Hno. rewrite include_css_node_unfold. cbv zeta.
    rewrite Hno. reflexivity. }
  - intros err Hget. split; [|apply contains_middle].
    rewrite include_css_soup_app, include_css_soup_cons, include_css_node_unfold.
    cbv zeta. rewrite Hlink, Hhref, Hne, Hget. reflexivity.
  - intros css Hget.
    rewrite include_css_soup_app, include_css_soup_cons, include_css_node_unfold.
    cbv zeta. rewrite Hlink, Hhref, Hne, Hget. reflexivity.
  - rewrite include_css_run. reflexivity.
Qed.

Lemma failed_stylesheet_is_local_witness :
  include_css_soup Examples.web MiniSoup.urljoin
    ([] ++ Examples.link_a :: [Examples.link_b]) "http://c.example/"
  = ([Examples.link_a;
      Elem "style" [("type", "text/css")] [Text "p { color: black; }"]],
     [HttpGet "http://c.example/a.css";
      StWarning (css_warning "http://c.example/a.css" Examples.not_found);
      HttpGet "http://c.example/b.css"]).
Proof.
  destruct (failed_stylesheet_is_local MiniSoup.serialize Examples.web MiniSoup.urljoin
              "http://c.example/" "link" [("rel", "stylesheet"); ("href", "a.css")]
              [] [] [Examples.link_b] "a.css")
    as (Hfail & _ & _ & _).
  - reflexivity.
  - reflexivity.
  - reflexivity.
  - destruct (Hfail Examples.not_found) as [E _]; [vm_compute; reflexivity|].
    unfold Examples.link_a. rewrite E. vm_compute. reflexivity.
Defined.

Section WithLibraries.
Variable parse : string -> Dom.soup.
Variable serialize : Dom.soup -> string.
Variable http_get : string -> response.
Variable urljoin : string -> string -> string.
Variable str_hasattr_name : bool.
Variable write_pdf : string -> string + string.

Local Abbreviation add_pages := (add_pages parse serialize http_get urljoin).
Local Abbreviation main :=
  (main parse serialize http_get urljoin str_hasattr_name write_pdf).

(** C5. On the DOCX path, after the loop over the URLs, [base_url] is
    the root of the last page that was fetched and was not empty, and
    every request of the translation is the [src] of an [img] tag of the
    combined content joined to that one base URL, whichever page the
    tag came from. *)
Theorem images_resolve_against_last_page (urls : list string) (u : string) :
  last_success http_get urls = Some u ->
  exists evs1 combined evs2,
    add_pages urls ("", None) = (evs1, Ok (combined, Some (urljoin u "/")))
    /\ main urls DOCX = (evs1 ++ evs2, Ok tt)
    /\ requests evs2
       = if nonempty combined
         then map (urljoin (urljoin u "/"))
                (flat_map img_src
                   (flat_map preorder
                      (visited str_hasattr_name (body_children (parse combined)))))
         else [].
Proof.
  intros Hlast.
  destruct (add_pages_base parse serialize http_get urljoin urls ("", None))
    as (evs1 & [combined b] & E & Hb).
  simpl in Hb. rewrite Hlast in Hb. subst b.
  destruct (generate_docx_requests parse http_get urljoin str_hasattr_name write_pdf
              combined (urljoin u "/")) as [(e2 & [] & E2 & _) Hreq].
  exists evs1, combined, e2.
  split; [exact E|]. split.
  - unfold Pipeline.main. rewrite E, bind_run, E2. reflexivity.
  - rewrite E2 in Hreq. simpl in Hreq. rewrite Hreq.
    destruct (nonempty combined); [|reflexivity].
    apply convert_to_docx_requests.
Qed.
End WithLibraries.

Lemma images_resolve_against_last_page_witness :
  exists evs1 combined evs2,
    Examples.run true [Examples.url_one; Examples.url_two; Examples.url_gone] DOCX
    = (evs1 ++ evs2, Ok tt)
    /\ nonempty combined = true
    /\ requests evs2 = ["http://b.example/pic.png"; "http://b.example/logo.png"].
Proof.
  destruct (images_resolve_against_last_page MiniSoup.parse MiniSoup.serialize
              Examples.web MiniSoup.urljoin true Examples.no_pdf
              [Examples.url_one; Examples.url_two; Examples.url_gone]
              Examples.url_two)
    as (evs1 & combined & evs2 & E & Hm & Hr).
  - vm_compute. reflexivity.
  - exists evs1, combined, evs2. split; [exact Hm|].
    assert (Hc : combined
                 = fst (match value (Pipeline.add_pages MiniSoup.parse MiniSoup.serialize
                                       Examples.web MiniSoup.urljoin
                                       [Examples.url_one; Examples.url_two;
                                        Examples.url_gone] ("", None)) with
                        | Ok st => st
                        | Raise _ => ("", None)
                        end)).
    { rewrite E. reflexivity. }
    split.
    + rewrite Hc. vm_compute. reflexivity.
    + rewrite Hr, Hc. vm_compute. reflexivity.
Defined.

End OrchestratorClaims.

(** ** End to end: one page with a title and a paragraph, one page that
    cannot be fetched *)

Module EndToEnd.
Import Dom Effects Pipeline Spec LogFacts SelectorFacts OrchestratorFacts.
Local Open Scope pipeline_scope.

(** C1. The code does not do what the claim asks for.  Input: the URLs
    [url_title] and [url_gone]; the page of the first has the body
    [<main><h1>Title</h1><p>Body text</p></main>], the second cannot be
    fetched.  The claim: the document has exactly Heading("Title", 1) and
    Paragraph("Body text").  The code: five blocks.  [process_element]
    adds the heading and the paragraph and then walks their children,
    where the same text becomes a paragraph once more; the text of the
    injected style block becomes a paragraph too.  The warnings are as
    claimed: one, naming the second URL. *)
Lemma two_urls_more_blocks :
  exists evs blocks,
    Examples.run true [Examples.url_title; Examples.url_gone] DOCX = (evs, Ok tt)
    /\ Examples.run false [Examples.url_title; Examples.url_gone] DOCX = (evs, Ok tt)
    /\ Examples.web Examples.url_title = Body Examples.page_title
    /\ find (by_name "main") (MiniSoup.parse Examples.page_title)
       = Some Examples.main_title
    /\ Examples.web Examples.url_gone = RequestException Examples.not_found
    /\ downloaded evs = [DocxFile blocks]
    /\ blocks = title_page_blocks
    /\ count_block (Heading 1 "Title") blocks = 1
    /\ count_block (Paragraph "Body text") blocks = 2
    /\ count_block (Paragraph "Title") blocks = 1
    /\ count_block (Paragraph style_css) blocks = 1
    /\ blocks <> [Heading 1 "Title"; Paragraph "Body text"]
    /\ warnings evs = [page_warning Examples.url_gone].
Proof.
  eexists _, _. split; [vm_compute; reflexivity|].
  repeat split; try (vm_compute; reflexivity).
  discriminate.
Qed.

Section TitlePage.
Variable parse : string -> Dom.soup.
Variable serialize : Dom.soup -> string.
Variable http_get : string -> response.
Variable urljoin : string -> string -> string.
Variable str_hasattr_name : bool.
Variable write_pdf : string -> string + string.

Variables u1 u2 page err : string.
Variables a_main a_h1 a_p : list (string * string).

Local Abbreviation main_el := (title_main a_main a_h1 a_p).
Local Abbreviation styled := (title_styled a_main a_h1 a_p).

Hypothesis Hu1 : nonempty u1 = true.
Hypothesis Hu2 : nonempty u2 = true.
Hypothesis Hget1 : http_get u1 = Body page.
Hypothesis Hpage : nonempty page = true.
Hypothesis Hget2 : http_get u2 = RequestException err.
Local Abbreviation inlined :=
  (include_css_soup http_get urljoin (parse page) (urljoin u1 "/")).

Hypothesis Hcss : warnings (snd inlined) = [].
Hypothesis Hmain :
  find (by_name "main") (parse (serialize (fst inlined))) = Some main_el.
Hypothesis Hrt_main : parse (serialize [main_el]) = [main_el].
Hypothesis Hne_main : nonempty (serialize [main_el]) = true.
Hypothesis Hrt_styled : parse (serialize styled) = styled.
Hypothesis Hne_styled : nonempty (serialize styled) = true.

Local Abbreviation add_page := (add_page parse serialize http_get urljoin).
Local Abbreviation convert_to_docx :=
  (convert_to_docx parse http_get urljoin str_hasattr_name).
Local Abbreviation main :=
  (main parse serialize http_get urljoin str_hasattr_name write_pdf).

Lemma title_page_selected :
  extract_main_content serialize (parse (serialize (fst inlined)))
  = ([], Ok (serialize [main_el])).
Proof.
  unfold extract_main_content, select_main_content. rewrite Hmain. reflexivity.
Qed.

Lemma title_page_styled :
  style_html_content parse serialize (serialize [main_el])
  = ([], Ok (serialize styled)).
Proof.
  unfold style_html_content. rewrite Hrt_main. reflexivity.
Qed.

Lemma title_page_added :
  add_page u1 ("", None)
  = (HttpGet u1 :: snd inlined, Ok (serialize styled, Some (urljoin u1 "/"))).
Proof.
  unfold Pipeline.add_page, fetch_webpage. rewrite Hu1, Hget1.
  change (tell [HttpGet u1] ;;; ret (Some page)) with ([HttpGet u1], Ok (Some page)).
  rewrite bind_run. rewrite Hpage.
  rewrite include_css_run, bind_run, title_page_selected, bind_run.
  rewrite Hne_main, title_page_styled.
  cbn [events value bind ret fst snd app]. rewrite !app_nil_r. reflexivity.
Qed.

Lemma missing_page_skipped (state : string * option string) :
  add_page u2 state
  = ([HttpGet u2; StError ("Failed to retrieve the webpage: " ++ err);
      StWarning (page_warning u2)], Ok state).
Proof.
  unfold Pipeline.add_page, fetch_webpage. destruct state as [combined base].
  rewrite Hu2, Hget2. reflexivity.
Qed.

Lemma title_page_translated (base : string) :
  convert_to_docx (serialize styled) base = ([], Ok (Some title_page_blocks)).
Proof.
  unfold Pipeline.convert_to_docx. rewrite Hrt_styled. reflexivity.
Qed.

(** The same run for any parser and serializer that read the extracted
    and the styled markup back as written, and any page whose first
    [main] tag holds one [h1] "Title" and one [p] "Body text": the blocks
    handed over are the five of [title_page_blocks], and the one warning
    names the second URL. *)
Theorem two_urls_end_to_end :
  exists evs,
    main [u1; u2] DOCX = (evs, Ok tt)
    /\ downloaded evs = [DocxFile title_page_blocks]
    /\ count_block (Heading 1 "Title") title_page_blocks = 1
    /\ warnings evs = [page_warning u2]
    /\ contains u2 (page_warning u2) = true.
Proof.
  eexists. split; [|split; [|split; [|split]]].
  - unfold Pipeline.main. cbn [Pipeline.add_pages].
    rewrite title_page_added, bind_run, missing_page_skipped.
    cbn [events value bind ret fst snd].
    unfold generate. rewrite Hne_styled, title_page_translated. reflexivity.
  - unfold downloaded. cbn [flat_map app]. rewrite !flat_map_app.
    fold (downloaded (snd inlined)). rewrite include_css_soup_quiet. reflexivity.
  - reflexivity.
  - cbn [warnings flat_map app]. rewrite !warnings_app, Hcss. reflexivity.
  - apply contains_end.
Qed.
End TitlePage.

Lemma two_urls_end_to_end_witness :
  exists evs,
    Examples.run true [Examples.url_title; Examples.url_gone] DOCX = (evs, Ok tt)
    /\ downloaded evs = [DocxFile title_page_blocks]
    /\ warnings evs = [page_warning Examples.url_gone].
Proof.
  destruct (two_urls_end_to_end MiniSoup.parse MiniSoup.serialize Examples.web
              MiniSoup.urljoin true Examples.no_pdf
              Examples.url_title Examples.url_gone Examples.page_title
              Examples.not_found [] [] [])
    as (evs & E & D & _ & W & _); try (vm_compute; reflexivity).
  exists evs. repeat split; assumption.
Defined.

End EndToEnd.

(** ** More about the orchestrator *)

Module OrchestratorExtras.
Import Dom Effects Pipeline Spec Behaviour LogFacts StyleFacts SelectorFacts
  TranslatorFacts OrchestratorFacts.
Local Open Scope pipeline_scope.

Lemma append_assoc (a b c : string) : ((a ++ b) ++ c)%string = (a ++ (b ++ c))%string.
Proof. induction a as [|x a IH]; simpl; congruence. Qed.

Lemma bind_ret_l {A B} (a : A) (k : A -> M B) : bind (ret a) k = k a.
Proof. unfold ret, bind. destruct (k a). reflexivity. Qed.

Lemma downloaded_app (e1 e2 : list event) :
  downloaded (e1 ++ e2) = downloaded e1 ++ downloaded e2.
Proof. apply flat_map_app. Qed.

Section WithLibraries.
Variable parse : string -> Dom.soup.
Variable serialize : Dom.soup -> string.
Variable http_get : string -> response.
Variable urljoin : string -> string -> string.
Variable str_hasattr_name : bool.
Variable write_pdf : string -> string + string.

Local Abbreviation include_css := (include_css serialize http_get urljoin).
Local Abbreviation extract_main_content := (extract_main_content serialize).
Local Abbreviation style_html_content := (style_html_content parse serialize).
Local Abbreviation convert_to_docx :=
  (convert_to_docx parse http_get urljoin str_hasattr_name).
Local Abbreviation add_page := (add_page parse serialize http_get urljoin).
Local Abbreviation add_pages := (add_pages parse serialize http_get urljoin).
Local Abbreviation generate :=
  (generate parse http_get urljoin str_hasattr_name write_pdf).
Local Abbreviation main :=
  (main parse serialize http_get urljoin str_hasattr_name write_pdf).
Local Abbreviation usable := (usable http_get).
Local Abbreviation last_success := (last_success http_get).
Local Abbreviation skipped_page_events := (skipped_page_events http_get).

(** What a page shows and what it adds to the combined markup do not
    depend on what was gathered before it. *)
Lemma add_page_contribution (url : string) :
  exists evs s,
    downloaded evs = []
    /\ (usable url = false -> evs = skipped_page_events url)
    /\ forall c b,
        add_page url (c, b)
        = (evs, Ok (if usable url
                    then ((c ++ s)%string, Some (urljoin url "/"))
                    else (c, b))).
Proof.
  unfold Pipeline.add_page, Spec.usable, Behaviour.skipped_page_events, fetch_webpage.
  destruct (nonempty url).
  2:{ exists [], "". repeat split; reflexivity. }
  cbn [andb]. destruct (http_get url) as [text | err].
  2:{ eexists _, "". split; [|split; [reflexivity|]]; [|intros c b; reflexivity].
      reflexivity. }
  destruct (nonempty text) eqn:Et.
  2:{ exists [HttpGet url; StWarning (page_warning url)], "".
      split; [reflexivity|]. split; [reflexivity|]. intros c b.
      change (tell [HttpGet url] ;;; ret (Some text))
        with ([HttpGet url], Ok (Some text)).
      rewrite bind_run. cbn iota beta. rewrite Et. reflexivity. }
  pose proof (include_css_run serialize http_get urljoin (parse text) (urljoin url "/"))
    as Ecss.
  set (css := serialize (fst (include_css_soup http_get urljoin (parse text)
                                (urljoin url "/")))) in *.
  set (e1 := snd (include_css_soup http_get urljoin (parse text) (urljoin url "/"))) in *.
  assert (Q1 : downloaded e1 = []) by apply include_css_soup_quiet.
  assert (Hex : exists e2 mc, extract_main_content (parse css) = (e2, Ok mc)
                              /\ downloaded e2 = []).
  { unfold Pipeline.extract_main_content.
    destruct (select_main_content (parse css)); eexists _, _; split; reflexivity. }
  destruct Hex as (e2 & mc & Eex & Q2).
  destruct (style_html_content_returns parse serialize
              (if nonempty mc then mc else css)) as (e3 & st & Est & _).
  assert (E3 : e3 = []).
  { revert Est. unfold Pipeline.style_html_content.
    destruct (style_soup (parse (if nonempty mc then mc else css)));
      [intros [= <- _]; reflexivity | discriminate]. }
  subst e3.
  exists (HttpGet url :: e1 ++ e2), st.
  split; [|split; [discriminate|]].
  - cbn [downloaded flat_map app]. fold (downloaded (e1 ++ e2)).
    rewrite downloaded_app, Q1, Q2. reflexivity.
  - intros c b.
    change (tell [HttpGet url] ;;; ret (Some text)) with ([HttpGet url], Ok (Some text)).
    rewrite bind_run. cbn iota beta. rewrite Et.
    rewrite Ecss, bind_run, Eex, bind_run.
    assert (Es : (if nonempty mc then style_html_content mc else style_html_content css)
                 = ([], Ok st)).
    { destruct (nonempty mc); exact Est. }
    rewrite Es. cbn [events value bind ret fst snd app].
    rewrite !app_nil_r. reflexivity.
Qed.

Lemma add_pages_contribution (urls : list string) :
  exists evs s,
    downloaded evs = []
    /\ (last_success urls = None -> s = "" /\ evs = flat_map skipped_page_events urls)
    /\ forall c b,
        add_pages urls (c, b)
        = (evs, Ok ((c ++ s)%string,
                    match last_success urls with
                    | Some u => Some (urljoin u "/")
                    | None => b
                    end)).
Proof.
  induction urls as [|u r (evs2 & s2 & Q2 & N2 & IH)].
  - exists [], "". repeat split; try reflexivity.
    intros c b. simpl. rewrite append_empty. reflexivity.
  - destruct (add_page_contribution u) as (evs1 & s1 & Q1 & N1 & H1).
    exists (evs1 ++ evs2), (if usable u then (s1 ++ s2)%string else s2).
    split; [rewrite downloaded_app, Q1, Q2; reflexivity|]. split.
    + cbn [Spec.last_success]. destruct (last_success r) as [v|]; [discriminate|].
      destruct (usable u); [discriminate|]. intros _.
      destruct (N2 eq_refl) as [-> ->]. rewrite (N1 eq_refl). split; reflexivity.
    + intros c b. cbn [Pipeline.add_pages Spec.last_success].
      rewrite H1, bind_run.
      destruct (usable u); rewrite IH; cbn [events value fst snd];
        destruct (last_success r); rewrite ?append_assoc; reflexivity.
Qed.
Lemma add_pages_app (l1 l2 : list string) (state : string * option string) :
  add_pages (l1 ++ l2) state = bind (add_pages l1 state) (add_pages l2).
Proof.
  revert state. induction l1 as [|u r IH]; intros state.
  - cbn [app Pipeline.add_pages]. symmetry. apply bind_ret_l.
  - cbn [app Pipeline.add_pages].
    destruct state as [c b].
    destruct (add_page_contribution u) as (evs1 & s1 & _ & _ & H1).
    rewrite H1, !bind_run, IH. unfold events, value.
    destruct (add_pages r _) as [e2 [st2|x]]; simpl.
    + destruct (add_pages l2 st2). simpl. rewrite app_assoc. reflexivity.
    + reflexivity.
Qed.

Lemma logged_quiet (base : string) (l : list node) :
  downloaded (flat_map (logged http_get urljoin base) l) = [].
Proof.
  induction l as [|n r IH]; simpl; [reflexivity|].
  rewrite downloaded_app, IH, app_nil_r.
  destruct n as [t | t | nm attrs cs]; try reflexivity.
  unfold Spec.logged, Spec.item, Pipeline.own_blocks.
  destruct (String.eqb nm "h1"); [reflexivity|].
  destruct (String.eqb nm "h2"); [reflexivity|].
  destruct (String.eqb nm "h3"); [reflexivity|].
  destruct (String.eqb nm "p"); [reflexivity|].
  destruct (String.eqb nm "img"); [|reflexivity].
  destruct (get_attr "src" attrs) as [src|]; [|reflexivity].
  destruct (nonempty src); [|reflexivity].
  destruct (http_get (urljoin base src)); reflexivity.
Qed.

(** The translation shows messages and hands nothing over by itself. *)
Lemma convert_to_docx_run (html base : string) :
  exists e,
    downloaded e = []
    /\ convert_to_docx html base
       = (e, Ok (if gets_through str_hasattr_name (body_children (parse html))
                 then Some (flat_map (emitted http_get urljoin base)
                              (document_order (body_children (parse html))))
                 else None)).
Proof.
  pose proof (convert_to_docx_value parse http_get urljoin str_hasattr_name html base)
    as Hv.
  pose proof (process_body_events http_get urljoin str_hasattr_name base
                (body_children (parse html))) as He.
  unfold Pipeline.convert_to_docx, events, value in *.
  destruct (process_body http_get urljoin str_hasattr_name base
              (body_children (parse html))) as [e [bs|x]]; simpl in *.
  - exists (e ++ []). rewrite Hv. split; [|reflexivity].
    rewrite app_nil_r, He. apply logged_quiet.
  - eexists. rewrite Hv. split; [|reflexivity].
    rewrite downloaded_app, He, logged_quiet. reflexivity.
Qed.

Lemma generate_value (dt : doc_type) (combined : string) (base : option string) :
  (nonempty combined = true -> base <> None) ->
  value (generate dt (combined, base)) = Ok tt.
Proof.
  intros Hb. unfold Pipeline.generate.
  destruct (nonempty combined); [|reflexivity].
  destruct dt.
  - unfold convert_to_pdf. destruct (write_pdf combined) as [pdf|e]; simpl.
    + destruct (nonempty pdf); reflexivity.
    + reflexivity.
  - destruct base as [b|]; [|exfalso; apply Hb; reflexivity].
    destruct (convert_to_docx_run combined b) as (e & _ & ->).
    destruct (gets_through str_hasattr_name (body_children (parse combined)));
      reflexivity.
Qed.

(** X1. The DOCX path never reads [base_url] before the loop has
    assigned it: whenever the loop ends with markup gathered, [base_url]
    is the root of the last usable URL, and [main] does not fail with a
    [NameError]. *)
Theorem base_url_assigned_before_use
  (urls : list string) (dt : doc_type)
  (evs : list event) (combined : string) (base : option string) :
  add_pages urls ("", None) = (evs, Ok (combined, base)) ->
  nonempty combined = true ->
  (exists u, last_success urls = Some u /\ base = Some (urljoin u "/"))
  /\ forall msg, value (main urls dt) <> Raise (NameError msg).
Proof.
  intros E Hne.
  destruct (add_pages_contribution urls) as (evs' & s & _ & N & H).
  rewrite (H "" None) in E. injection E as _ <- <-.
  assert (Hu : exists u, last_success urls = Some u).
  { destruct (last_success urls) as [u|]; [eauto|].
    destruct (N eq_refl) as [-> _]. discriminate. }
  destruct Hu as [u Hu]. split.
  - exists u. rewrite Hu. split; reflexivity.
  - intros msg. unfold Pipeline.main. rewrite (H "" None), bind_run. cbn [value snd].
    rewrite generate_value; [discriminate|].
    intros _. rewrite Hu. discriminate.
Qed.

Lemma skipped_page_warnings (u : string) :
  warnings (skipped_page_events u) = if nonempty u then [page_warning u] else [].
Proof.
  unfold Behaviour.skipped_page_events.
  destruct (nonempty u); [|reflexivity]. destruct (http_get u); reflexivity.
Qed.

Lemma skipped_page_requests (u : string) :
  requests (skipped_page_events u) = if nonempty u then [u] else [].
Proof.
  unfold Behaviour.skipped_page_events.
  destruct (nonempty u); [|reflexivity]. destruct (http_get u); reflexivity.
Qed.

(** X2. When no URL gives a page, [main] asks for every non-empty URL
    once, warns once for each of them, in order, then shows the "no valid
    content" warning; it hands no document over. *)
Theorem no_usable_page_no_document (urls : list string) (dt : doc_type) :
  last_success urls = None ->
  main urls dt
  = (flat_map skipped_page_events urls ++ [StWarning no_content_warning], Ok tt)
  /\ downloaded (events (main urls dt)) = []
  /\ requests (events (main urls dt)) = filter nonempty urls
  /\ warnings (events (main urls dt))
     = map page_warning (filter nonempty urls) ++ [no_content_warning].
Proof.
  intros Hn.
  destruct (add_pages_contribution urls) as (evs & s & Q & N & H).
  destruct (N Hn) as [-> ->].
  assert (E : main urls dt
              = (flat_map skipped_page_events urls ++ [StWarning no_content_warning],
                 Ok tt)).
  { unfold Pipeline.main. rewrite (H "" None), bind_run. reflexivity. }
  split; [exact E|]. rewrite E. cbn [events fst].
  split; [rewrite downloaded_app, Q; reflexivity|].
  rewrite requests_app, warnings_app. cbn [requests warnings flat_map app].
  rewrite app_nil_r. clear.
  split.
  - induction urls as [|u r IH]; [reflexivity|].
    cbn [flat_map filter]. rewrite requests_app, skipped_page_requests, IH.
    destruct (nonempty u); reflexivity.
  - f_equal. induction urls as [|u r IH]; [reflexivity|].
    cbn [flat_map filter]. rewrite warnings_app, skipped_page_warnings, IH.
    destruct (nonempty u); reflexivity.
Qed.

Lemma bind_ext {A B} (m : M A) (k k' : A -> M B) :
  (forall a, k a = k' a) -> bind m k = bind m k'.
Proof. intros H. destruct m as [e [a|x]]; simpl; [rewrite H|]; reflexivity. Qed.

Lemma add_pages_skip_empty (urls : list string) (state : string * option string) :
  add_pages (filter nonempty urls) state = add_pages urls state.
Proof.
  revert state. induction urls as [|u r IH]; intros state; [reflexivity|].
  cbn [filter Pipeline.add_pages]. destruct (nonempty u) eqn:E.
  - cbn [Pipeline.add_pages]. apply bind_ext. exact IH.
  - unfold Pipeline.add_page at 1. destruct state as [c b]. rewrite E.
    rewrite bind_ret_l. apply IH.
Qed.

(** X3. Empty URLs are ignored: a run over the URLs with the empty ones
    left out shows the same messages, makes the same requests and hands
    over the same document. *)
Theorem empty_urls_are_ignored (urls : list string) (dt : doc_type) :
  main (filter nonempty urls) dt = main urls dt.
Proof.
  unfold Pipeline.main. rewrite add_pages_skip_empty. reflexivity.
Qed.

(** X4. The loop keeps the order of the URLs: the markup and the events of
    a run over [l1 ++ l2] are those of a run over [l1] followed by those
    of a run over [l2], whatever was gathered before. *)
Theorem pages_add_in_order (l1 l2 : list string) (c : string) (b : option string) :
  combined_of (add_pages (l1 ++ l2) (c, b))
  = (c ++ combined_of (add_pages l1 ("", None))
       ++ combined_of (add_pages l2 ("", None)))%string
  /\ events (add_pages (l1 ++ l2) (c, b))
     = events (add_pages l1 ("", None)) ++ events (add_pages l2 ("", None)).
Proof.
  destruct (add_pages_contribution l1) as (e1 & s1 & _ & _ & H1).
  destruct (add_pages_contribution l2) as (e2 & s2 & _ & _ & H2).
  rewrite add_pages_app, H1, bind_run, !H2, (H1 "" None).
  unfold combined_of. cbn [events value fst snd]. rewrite append_assoc.
  split; reflexivity.
Qed.

Lemma add_pages_warns (urls : list string) (u : string) :
  In u urls -> nonempty u = true -> usable u = false ->
  forall state, In (StWarning (page_warning u)) (events (add_pages urls state)).
Proof.
  intros Hin Hne Hun.
  induction urls as [|a r IH]; [destruct Hin|]. intros [c b].
  cbn [Pipeline.add_pages].
  destruct (add_page_contribution a) as (evs1 & s1 & _ & N1 & H1).
  rewrite H1, bind_run. cbn [events fst]. apply in_or_app.
  destruct Hin as [-> | Hin].
  - left. rewrite (N1 Hun). unfold Behaviour.skipped_page_events. rewrite Hne.
    destruct (http_get u); simpl; auto.
  - right. apply (IH Hin).
Qed.

(** X5. Every non-empty URL that gives no page, because it cannot be
    fetched or because its page is empty, is named in a warning. *)
Theorem failed_pages_are_named (urls : list string) (dt : doc_type) (u : string) :
  In u urls -> nonempty u = true -> usable u = false ->
  In (page_warning u) (warnings (events (main urls dt)))
  /\ contains u (page_warning u) = true.
Proof.
  intros Hin Hne Hun. split; [|apply contains_end].
  pose proof (add_pages_warns urls u Hin Hne Hun ("", None)) as Hw.
  destruct (add_pages_contribution urls) as (evs & s & _ & _ & H).
  unfold Pipeline.main. rewrite (H "" None) in *. rewrite bind_run.
  cbn [events fst] in *. rewrite warnings_app. apply in_or_app. left.
  unfold warnings. apply in_flat_map. exists (StWarning (page_warning u)).
  split; [exact Hw | left; reflexivity].
Qed.

(** X6. On the DOCX path, once a page has been gathered, [main] hands over
    at most one document; when it does, the document is made of the
    blocks of the combined markup in document order, with the root of the
    last usable URL as the base URL; it hands over none when nothing was
    gathered or when a string among the children of the starting element
    stops the translation. *)
Theorem docx_delivery (urls : list string) (u : string) :
  last_success urls = Some u ->
  let combined := combined_of (add_pages urls ("", None)) in
  let blocks :=
    flat_map (emitted http_get urljoin (urljoin u "/"))
      (document_order (body_children (parse combined))) in
  (downloaded (events (main urls DOCX)) = []
   \/ downloaded (events (main urls DOCX)) = [DocxFile blocks])
  /\ (nonempty combined
      && gets_through str_hasattr_name (body_children (parse combined)) = false ->
      downloaded (events (main urls DOCX)) = []).
Proof.
  intros Hl.
  destruct (add_pages_contribution urls) as (evs & s & Q & _ & H).
  unfold Pipeline.main, combined_of. rewrite (H "" None), bind_run, Hl.
  cbn [events value fst snd]. rewrite downloaded_app, Q. cbn [app].
  unfold Pipeline.generate. destruct (nonempty ("" ++ s)).
  2:{ split; [left|intros _]; reflexivity. }
  destruct (convert_to_docx_run ("" ++ s) (urljoin u "/")) as (e & Qe & ->).
  cbn [andb].
  destruct (gets_through str_hasattr_name (body_children (parse ("" ++ s))));
    cbn [bind tell ret fst events]; rewrite downloaded_app, Qe.
  - split; [right; reflexivity|discriminate].
  - split; [left|intros _]; reflexivity.
Qed.

(** X7. On the PDF path [main] hands over the bytes the renderer makes of
    the combined markup, when there is markup, the renderer does not fail
    and the bytes are not empty, and nothing otherwise. *)
Theorem pdf_delivery (urls : list string) :
  let combined := combined_of (add_pages urls ("", None)) in
  downloaded (events (main urls PDF))
  = match write_pdf combined with
    | inl pdf =>
        if nonempty combined && nonempty pdf
        then [PdfFile pdf] else []
    | inr _ => []
    end.
Proof.
  destruct (add_pages_contribution urls) as (evs & s & Q & _ & H).
  unfold Pipeline.main, combined_of. rewrite (H "" None), bind_run.
  cbn [events value fst snd]. rewrite downloaded_app, Q. cbn [app].
  unfold Pipeline.generate, convert_to_pdf.
  destruct (nonempty ("" ++ s)).
  2:{ destruct (write_pdf ("" ++ s)); reflexivity. }
  destruct (write_pdf ("" ++ s)) as [pdf|e]; cbn [andb].
  - rewrite bind_ret_l. cbn [truthy]. destruct (nonempty pdf); reflexivity.
  - reflexivity.
Qed.
End WithLibraries.

Lemma no_usable_page_no_document_witness :
  main MiniSoup.parse MiniSoup.serialize web_blank MiniSoup.urljoin true Examples.no_pdf
    [Examples.url_gone; ""; url_blank] PDF
  = ([HttpGet Examples.url_gone;
      StError ("Failed to retrieve the webpage: " ++ Examples.not_found);
      StWarning (page_warning Examples.url_gone);
      HttpGet url_blank; StWarning (page_warning url_blank);
      StWarning no_content_warning], Ok tt).
Proof.
  destruct (no_usable_page_no_document MiniSoup.parse MiniSoup.serialize web_blank
              MiniSoup.urljoin true Examples.no_pdf
              [Examples.url_gone; ""; url_blank] PDF) as (E & _).
  - vm_compute. reflexivity.
  - rewrite E. vm_compute. reflexivity.
Defined.

Lemma failed_pages_are_named_witness :
  In (page_warning url_blank)
    (warnings (events (main MiniSoup.parse MiniSoup.serialize web_blank MiniSoup.urljoin
                         true Examples.no_pdf [Examples.url_title; url_blank] DOCX))).
Proof.
  destruct (failed_pages_are_named MiniSoup.parse MiniSoup.serialize web_blank
              MiniSoup.urljoin true Examples.no_pdf
              [Examples.url_title; url_blank] DOCX url_blank) as (H & _).
  - simpl. tauto.
  - reflexivity.
  - vm_compute. reflexivity.
  - exact H.
Defined.

Lemma base_url_assigned_before_use_witness :
  exists u,
    last_success Examples.web [Examples.url_one; Examples.url_two; Examples.url_gone]
    = Some u
    /\ MiniSoup.urljoin u "/" = "http://b.example/".
Proof.
  set (m := Pipeline.add_pages MiniSoup.parse MiniSoup.serialize Examples.web
              MiniSoup.urljoin
              [Examples.url_one; Examples.url_two; Examples.url_gone] ("", None)).
  set (st := match value m with Ok st => st | Raise _ => ("", None) end).
  assert (E : m = (events m, Ok (fst st, snd st))) by (vm_compute; reflexivity).
  destruct (base_url_assigned_before_use MiniSoup.parse MiniSoup.serialize Examples.web
              MiniSoup.urljoin true Examples.no_pdf
              [Examples.url_one; Examples.url_two; Examples.url_gone] DOCX
              (events m) (fst st) (snd st) E) as ((u & Hu & Hb) & _).
  - vm_compute. reflexivity.
  - exists u. split; [exact Hu|].
    assert (Hs : snd st = Some "http://b.example/") by (vm_compute; reflexivity).
    rewrite Hs in Hb. injection Hb as Hb. symmetry. exact Hb.
Defined.

Lemma docx_delivery_witness :
  downloaded (events (Examples.run true [Examples.url_title] DOCX)) = []
  \/ downloaded (events (Examples.run true [Examples.url_title] DOCX))
     = [DocxFile title_page_blocks].
Proof.
  unfold Examples.run.
  destruct (docx_delivery MiniSoup.parse MiniSoup.serialize Examples.web
              MiniSoup.urljoin true Examples.no_pdf
              [Examples.url_title] Examples.url_title) as [[H | H] _].
  - vm_compute. reflexivity.
  - left. exact H.
  - right. rewrite H. vm_compute. reflexivity.
Defined.

End OrchestratorExtras.

(** ** More about the inliner, the selector, the normalizer and the
    translator *)

Module ContentExtras.
Import Dom Effects Pipeline Spec Behaviour DomFacts LogFacts StyleFacts SelectorFacts
  TranslatorFacts.

Lemma first_some_app {A B} (f : A -> option B) (l1 l2 : list A) :
  first_some f (l1 ++ l2)
  = match first_some f l1 with
    | Some b => Some b
    | None => first_some f l2
    end.
Proof.
  induction l1 as [|a r IH]; simpl; [reflexivity|].
  destruct (f a); [reflexivity|exact IH].
Qed.

Lemma first_some_in {A B} (f : A -> option B) (l : list A) (a : A) :
  In a l -> f a <> None -> first_some f l <> None.
Proof.
  induction l as [|x r IH]; simpl; [tauto|].
  intros [-> | Hin] Ha.
  - destruct (f a); [discriminate|congruence].
  - destruct (f x); [discriminate|auto].
Qed.

Lemma first_some_from {A B} (f : A -> option B) (l : list A) (b : B) :
  first_some f l = Some b -> exists a, In a l /\ f a = Some b.
Proof.
  induction l as [|x r IH]; simpl; [discriminate|].
  destruct (f x) as [y|] eqn:E.
  - intros [= <-]. eauto.
  - intros H. destruct (IH H) as (a & Ha & Hf). eauto.
Qed.

(** A match that [find] returns is a node of the document. *)
Lemma find_node_in (p : matcher) (n m : node) :
  find_node p n = Some m -> In m (preorder n).
Proof.
  revert m.
  induction n as [s | s | nm attrs cs IH] using node_ind'; simpl; try discriminate.
  intros m. destruct (p nm attrs); [intros [= <-]; left; reflexivity|].
  intros H. right.
  induction IH as [|c r Hc _ IHr]; simpl in *; [discriminate|].
  apply in_or_app. destruct (find_node p c) as [mc|].
  - left. apply Hc. exact H.
  - right. apply IHr. exact H.
Qed.

Lemma find_in (p : matcher) (s : soup) (m : node) :
  find p s = Some m -> In m (flat_map preorder s).
Proof.
  unfold find. intros H. destruct (first_some_from _ _ _ H) as (n & Hn & Hf).
  apply in_flat_map. exists n. split; [exact Hn|]. eapply find_node_in. exact Hf.
Qed.

Lemma in_preorder_find (p : matcher) (n m : node) :
  In m (preorder n) -> matches p m = true -> find_node p n <> None.
Proof.
  intros Hin Hm. revert Hin.
  induction n as [s | s | nm attrs cs IH] using node_ind'; simpl.
  - intros [<- | []]. discriminate.
  - intros [<- | []]. discriminate.
  - intros [<- | Hin].
    + simpl in Hm. rewrite Hm. discriminate.
    + destruct (p nm attrs); [discriminate|].
      apply in_flat_map in Hin. destruct Hin as (c & Hc & Hin).
      apply (first_some_in _ _ c Hc).
      rewrite Forall_forall in IH. apply IH; assumption.
Qed.

Lemma preorder_trans (n m x : node) :
  In m (preorder n) -> In x (preorder m) -> In x (preorder n).
Proof.
  intros Hm Hx. revert Hm.
  induction n as [s | s | nm attrs cs IH] using node_ind'; simpl.
  - intros [<- | []]. exact Hx.
  - intros [<- | []]. exact Hx.
  - intros [<- | Hin]; [exact Hx|]. right.
    apply in_flat_map in Hin. destruct Hin as (c & Hc & Hin).
    apply in_flat_map. exists c. split; [exact Hc|].
    rewrite Forall_forall in IH. apply IH; assumption.
Qed.

(** What is found inside a node of the document is found in the
    document. *)
Lemma find_inside (p q : matcher) (s : soup) (r : node) :
  find q s = Some r -> find p [r] <> None -> find p s <> None.
Proof.
  intros Hr Hp. apply find_in in Hr.
  destruct (find p [r]) as [m|] eqn:F; [|congruence].
  pose proof (find_first_matches _ _ _ F) as Hm.
  apply find_in in F. simpl in F. rewrite app_nil_r in F.
  apply in_flat_map in Hr. destruct Hr as (n & Hn & Hin).
  unfold find. apply (first_some_in _ _ n Hn).
  apply (in_preorder_find p n m); [|exact Hm].
  eapply preorder_trans; eassumption.
Qed.

Lemma decompose_in_sub (p : matcher) (n : node) : sub_soup [decompose_in p n] [n].
Proof.
  destruct n as [s | s | nm attrs cs]; simpl; try apply sub_soup_refl.
  apply sub_keep; [|apply sub_nil]. apply sub_elem, decompose_sub.
Qed.

Lemma decompose_in_again (p : matcher) (n : node) :
  decompose_in p (decompose_in p n) = decompose_in p n.
Proof.
  destruct n as [s | s | nm attrs cs]; simpl; try reflexivity.
  rewrite (decompose_id p _ (decompose_clean p cs)). reflexivity.
Qed.

Lemma decompose_in_matches (p q : matcher) (n : node) :
  matches q (decompose_in p n) = matches q n.
Proof. destruct n; reflexivity. Qed.

(** The region a table of selectors picks is picked again from the region
    alone. *)
Lemma find_root (p : matcher) (n : node) :
  matches p n = true -> find p [n] = Some n.
Proof.
  destruct n as [t | t | nm attrs cs]; simpl; try discriminate.
  unfold find. simpl. intros ->. reflexivity.
Qed.

Lemma first_match_region (table : list matcher) (s : soup) (r : node) :
  first_some (fun p => find p s) table = Some r ->
  first_some (fun p => find p [decompose_in chrome r]) table
  = Some (decompose_in chrome r).
Proof.
  induction table as [|p t IH]; cbn [first_some]; [discriminate|].
  destruct (find p s) as [x|] eqn:F.
  - intros [= ->]. pose proof (find_first_matches _ _ _ F) as Hm.
    rewrite <- (decompose_in_matches chrome p r) in Hm.
    rewrite (find_root p _ Hm). reflexivity.
  - intros Ht. destruct (find p [decompose_in chrome r]) as [y|] eqn:F'.
    + exfalso.
      destruct (first_some_from _ _ _ Ht) as (q & _ & Hq).
      apply (find_inside p q s r Hq); [|exact F].
      apply (proj2 (find_sub p) _ _ (decompose_in_sub chrome r)). congruence.
    + apply IH. exact Ht.
Qed.

(** X11. The content selector is idempotent: run on its own output (when
    the output reads back as the region it was written from), it finds
    the same region, has nothing left to remove and returns the same
    markup without a warning. *)
Theorem extract_main_content_idempotent
  (parse : string -> soup) (serialize : soup -> string) (s : soup) (region : node) :
  select_main_content s = Some region ->
  parse (serialize [decompose_in chrome region]) = [decompose_in chrome region] ->
  extract_main_content serialize s
  = ([], Ok (serialize [decompose_in chrome region]))
  /\ extract_main_content serialize (parse (serialize [decompose_in chrome region]))
     = ([], Ok (serialize [decompose_in chrome region])).
Proof.
  intros Hsel Hrt. unfold extract_main_content. rewrite Hsel, Hrt.
  split; [reflexivity|].
  rewrite select_first_match in *. unfold first_match in *.
  rewrite (first_match_region _ _ _ Hsel), decompose_in_again. reflexivity.
Qed.

Lemma extract_main_content_idempotent_witness :
  extract_main_content MiniSoup.serialize
    (MiniSoup.parse
       "<article><nav>menu</nav><div><aside>ad</aside><p>kept</p></div></article>")
  = ([], Ok "<article><div><p>kept</p></div></article>")
  /\ extract_main_content MiniSoup.serialize
       (MiniSoup.parse "<article><div><p>kept</p></div></article>")
     = ([], Ok "<article><div><p>kept</p></div></article>").
Proof.
  pose proof (extract_main_content_idempotent MiniSoup.parse MiniSoup.serialize
                (MiniSoup.parse
                   "<article><nav>menu</nav><div><aside>ad</aside><p>kept</p></div></article>")
                (Elem "article" []
                   [Elem "nav" [] [Text "menu"];
                    Elem "div" [] [Elem "aside" [] [Text "ad"];
                                   Elem "p" [] [Text "kept"]]])
                eq_refl eq_refl) as H.
  exact H.
Defined.

Section Inliner.
Variable serialize : Dom.soup -> string.
Variable http_get : string -> response.
Variable urljoin : string -> string -> string.

Local Abbreviation include_css_node := (include_css_node http_get urljoin).
Local Abbreviation include_css_soup := (include_css_soup http_get urljoin).
Local Abbreviation include_css := (include_css serialize http_get urljoin).
Local Abbreviation css_href := (css_href urljoin).
Local Abbreviation unresolved := (unresolved http_get urljoin).

Lemma include_css_node_requests (base : string) (n : node) :
  requests (snd (include_css_node base n))
  = flat_map (css_href base) (find_all_node stylesheet_link n).
Proof.
  induction n as [s | s | nm attrs cs IH] using node_ind'; try reflexivity.
  rewrite include_css_node_unfold. cbv zeta.
  assert (E : requests (snd (include_css_soup cs base))
              = flat_map (css_href base) (flat_map (find_all_node stylesheet_link) cs)).
  { rewrite include_css_soup_split. simpl.
    induction IH as [|c r Hc _ IHr]; simpl; [reflexivity|].
    rewrite requests_app, flat_map_app, Hc, IHr. reflexivity. }
  simpl find_all_node. destruct (stylesheet_link nm attrs); [|exact E].
  cbn [app flat_map]. unfold Behaviour.css_href at 1.
  destruct (get_attr "href" attrs) as [href|]; [|exact E].
  destruct (nonempty href); [|exact E].
  destruct (http_get (if String.prefix "http" href then href else urljoin base href));
    cbn [snd requests flat_map app]; fold (requests (snd (include_css_soup cs base)));
    rewrite E; reflexivity.
Qed.

(** X8. [include_css] requests, in document order and once each, the
    references of the tags [soup.find_all("link", rel="stylesheet")]
    lists: a reference that starts with "http" as it is, any other joined
    to the base URL; a link without a reference is not requested. *)
Theorem include_css_requests (soup : Dom.soup) (base : string) :
  requests (events (include_css soup base))
  = flat_map (css_href base) (find_all stylesheet_link soup)
  /\ length (warnings (events (include_css soup base)))
     <= length (requests (events (include_css soup base))).
Proof.
  rewrite include_css_run. cbn [events fst].
  rewrite include_css_soup_split. cbn [snd]. split.
  - unfold find_all. induction soup as [|c r IH]; simpl; [reflexivity|].
    rewrite requests_app, flat_map_app, include_css_node_requests, IH. reflexivity.
  - assert (Hn : forall n, length (warnings (snd (include_css_node base n)))
                           <= length (requests (snd (include_css_node base n)))).
    { intros n.
      induction n as [s | s | nm attrs cs IH] using node_ind'; try (simpl; lia).
      rewrite include_css_node_unfold. cbv zeta.
      assert (E : length (warnings (snd (include_css_soup cs base)))
                  <= length (requests (snd (include_css_soup cs base)))).
      { rewrite include_css_soup_split. simpl.
        induction IH as [|c r Hc _ IHr]; simpl; [lia|].
        rewrite warnings_app, requests_app, !length_app. lia. }
      destruct (stylesheet_link nm attrs); [|exact E].
      destruct (get_attr "href" attrs) as [href|]; [|exact E].
      destruct (nonempty href); [|exact E].
      destruct (http_get (if String.prefix "http" href then href
                          else urljoin base href));
        cbn [snd warnings requests flat_map app length];
        fold (warnings (snd (include_css_soup cs base)));
        fold (requests (snd (include_css_soup cs base))); lia. }
    induction soup as [|c r IH]; simpl; [lia|].
    rewrite warnings_app, requests_app, !length_app. specialize (Hn c). lia.
Qed.

(** X9. A page without stylesheet links goes through [include_css] as it
    is: no request, no message, the same document. *)
Theorem include_css_without_links (soup : Dom.soup) (base : string) :
  find_all stylesheet_link soup = [] ->
  include_css soup base = ([], Ok (serialize soup)).
Proof.
  intros H. rewrite include_css_run, (include_css_soup_id _ _ _ _ H). reflexivity.
Qed.

Lemma include_css_node_leftover (base : string) (n : node) :
  Forall (fun l => unresolved base l = true)
    (find_all_node stylesheet_link (fst (include_css_node base n))).
Proof.
  induction n as [s | s | nm attrs cs IH] using node_ind'; try (simpl; constructor).
  rewrite include_css_node_unfold. cbv zeta.
  assert (E : Forall (fun l => unresolved base l = true)
                (flat_map (find_all_node stylesheet_link)
                   (fst (include_css_soup cs base)))).
  { rewrite include_css_soup_split. simpl.
    induction IH as [|c r Hc _ IHr]; simpl; [constructor|].
    apply Forall_app. split; assumption. }
  destruct (stylesheet_link nm attrs) eqn:Ep.
  2:{ cbn [fst find_all_node]. rewrite Ep. exact E. }
  destruct (get_attr "href" attrs) as [href|] eqn:Eh.
  2:{ cbn [fst find_all_node]. rewrite Ep. constructor; [|exact E].
      unfold Behaviour.unresolved, Behaviour.css_href. rewrite Eh. reflexivity. }
  destruct (nonempty href) eqn:En.
  2:{ cbn [fst find_all_node]. rewrite Ep. constructor; [|exact E].
      unfold Behaviour.unresolved, Behaviour.css_href. rewrite Eh, En. reflexivity. }
  destruct (http_get (if String.prefix "http" href then href else urljoin base href))
    eqn:Eg.
  - simpl. constructor.
  - cbn [fst find_all_node]. rewrite Ep. constructor; [|exact E].
    unfold Behaviour.unresolved, Behaviour.css_href. rewrite Eh, En, Eg. reflexivity.
Qed.

(** X10. After [include_css], every stylesheet link still in the document
    is one that could not be replaced: it has no reference, or its
    stylesheet could not be fetched. *)
Theorem include_css_leaves_only_unresolved (soup : Dom.soup) (base : string) :
  Forall (fun l => unresolved base l = true)
    (find_all stylesheet_link (fst (include_css_soup soup base))).
Proof.
  rewrite include_css_soup_split. unfold find_all. simpl.
  induction soup as [|c r IH]; simpl; [constructor|].
  apply Forall_app. split; [apply include_css_node_leftover|exact IH].
Qed.
End Inliner.

Lemma include_css_without_links_witness :
  include_css MiniSoup.serialize Examples.web MiniSoup.urljoin
    [Examples.main_title] "http://a.example/"
  = ([], Ok "<main><h1>Title</h1><p>Body text</p></main>").
Proof.
  rewrite (include_css_without_links MiniSoup.serialize Examples.web MiniSoup.urljoin
             [Examples.main_title] "http://a.example/").
  - vm_compute. reflexivity.
  - vm_compute. reflexivity.
Defined.

End ContentExtras.

Module TranslatorExtras.
Import Dom Effects Pipeline Spec Behaviour DomFacts LogFacts StyleFacts SelectorFacts
  TranslatorFacts ContentExtras.

(** X12. One call of [style_html_content] adds exactly one [style] tag to
    the document, an [html] tag only when there was none, and a [head]
    tag only when there was none. *)
Theorem style_html_content_adds_one_style
  (parse : string -> soup) (serialize : soup -> string) (html : string) :
  exists soup',
    style_html_content parse serialize html = ([], Ok (serialize soup'))
    /\ count_tags "style" soup' = S (count_tags "style" (parse html))
    /\ count_tags "html" soup'
       = count_tags "html" (parse html)
         + match find (by_name "html") (parse html) with Some _ => 0 | None => 1 end
    /\ count_tags "head" soup'
       = count_tags "head" (parse html)
         + match find (by_name "head") (parse html) with Some _ => 0 | None => 1 end.
Proof.
  unfold style_html_content.
  destruct (style_soup_cases (parse html))
    as [(hd & s3 & F & U & ->) | (F & h & s3 & _ & U & ->)];
    exists s3; (split; [reflexivity|]); rewrite shell_head in F; rewrite F;
    unfold count_tags at 1 3 5.
  - rewrite !(count_update_first _ _ _ _ _ _ (fun nm a cs => count_append _ style_tag nm a cs) U).
    fold (count_tags "style" (shell (parse html))).
    fold (count_tags "html" (shell (parse html))).
    fold (count_tags "head" (shell (parse html))).
    rewrite !count_shell. simpl.
    destruct (find (by_name "html") (parse html)); repeat split; lia.
  - rewrite !(count_update_first _ _ _ _ _ _ (fun nm a cs => count_insert0 _ head_styled nm a cs) U).
    fold (count_tags "style" (shell (parse html))).
    fold (count_tags "html" (shell (parse html))).
    fold (count_tags "head" (shell (parse html))).
    rewrite !count_shell. simpl.
    destruct (find (by_name "html") (parse html)); repeat split; lia.
Qed.

Section Walk.
Variable parse : string -> Dom.soup.
Variable http_get : string -> response.
Variable urljoin : string -> string -> string.
Variable str_hasattr_name : bool.

Local Abbreviation convert_to_docx :=
  (convert_to_docx parse http_get urljoin str_hasattr_name).
Local Abbreviation emitted := (emitted http_get urljoin).
Local Abbreviation logged := (logged http_get urljoin).
Local Abbreviation gets_through := (gets_through str_hasattr_name).
Local Abbreviation visited := (visited str_hasattr_name).

Lemma item_well_formed (base : string) (n : node) :
  forallb well_formed (emitted base n) = true.
Proof.
  destruct n as [s | s | nm attrs cs]; try reflexivity.
  unfold Spec.emitted, Spec.item, Pipeline.own_blocks.
  destruct (String.eqb nm "h1"); [reflexivity|].
  destruct (String.eqb nm "h2"); [reflexivity|].
  destruct (String.eqb nm "h3"); [reflexivity|].
  destruct (String.eqb nm "p"); [reflexivity|].
  destruct (String.eqb nm "img"); [|reflexivity].
  destruct (get_attr "src" attrs) as [src|]; [|reflexivity].
  destruct (nonempty src); [|reflexivity].
  destruct (http_get (urljoin base src)); reflexivity.
Qed.

(** X13. [convert_to_docx] ends with a document or with [None]: what is
    raised inside it is caught.  In a document it returns, every heading
    has level 1, 2 or 3 and every picture is four inches wide. *)
Theorem docx_blocks_are_well_formed (html base : string) :
  exists outcome,
    value (convert_to_docx html base) = Ok outcome
    /\ forall blocks, outcome = Some blocks -> forallb well_formed blocks = true.
Proof.
  rewrite convert_to_docx_value. eexists. split; [reflexivity|].
  intros blocks.
  destruct (gets_through (body_children (parse html))); [|discriminate].
  intros [= <-].
  induction (document_order (body_children (parse html))) as [|n r IH];
    [reflexivity|].
  simpl. rewrite forallb_app, item_well_formed, IH. reflexivity.
Qed.

Lemma body_children_app (s1 s2 : soup) :
  find (by_name "body") s1 <> None -> body_children (s1 ++ s2) = body_children s1.
Proof.
  unfold body_children, find. rewrite first_some_app.
  destruct (first_some (find_node (by_name "body")) s1); [reflexivity|congruence].
Qed.

(** X14. The translation starts from the first [body] tag of the markup:
    when two documents are put one after the other and the first has a
    [body], nothing of the second reaches the DOCX document. *)
Theorem content_after_first_body_is_dropped (html html1 base : string) (rest : soup) :
  parse html = parse html1 ++ rest ->
  find (by_name "body") (parse html1) <> None ->
  convert_to_docx html base = convert_to_docx html1 base.
Proof.
  intros Hp Hb. unfold Pipeline.convert_to_docx.
  rewrite Hp, (body_children_app _ _ Hb). reflexivity.
Qed.

Lemma visited_gets_through (top : list node) :
  gets_through top = true -> visited top = filter is_tag top.
Proof.
  unfold Spec.gets_through.
  induction top as [|n r IH]; [reflexivity|].
  destruct n as [s | s | nm attrs cs]; simpl.
  - destruct str_hasattr_name; [discriminate|]. exact IH.
  - destruct str_hasattr_name; [discriminate|]. exact IH.
  - intros H. rewrite (IH H). reflexivity.
Qed.

(** X15. When [convert_to_docx] hands a document over, its pictures and
    the warnings shown are together as many as the images requested:
    every image asked for is in the document or named in a warning. *)
Theorem docx_pictures_and_warnings (html base : string) (blocks : list block) :
  value (convert_to_docx html base) = Ok (Some blocks) ->
  length (pictures blocks) + length (warnings (events (convert_to_docx html base)))
  = length (requests (events (convert_to_docx html base))).
Proof.
  rewrite convert_to_docx_value.
  destruct (gets_through (body_children (parse html))) eqn:G; [|discriminate].
  intros [= <-].
  pose proof (process_body_events http_get urljoin str_hasattr_name base
                (body_children (parse html))) as He.
  pose proof (process_body_value http_get urljoin str_hasattr_name base
                (body_children (parse html))) as Hv.
  fold (gets_through (body_children (parse html))) in Hv. rewrite G in Hv.
  rewrite (visited_gets_through _ G) in He.
  fold (document_order (body_children (parse html))) in He.
  unfold Pipeline.convert_to_docx, events, value in *.
  destruct (process_body http_get urljoin str_hasattr_name base
              (body_children (parse html))) as [e [bs|x]]; [|discriminate].
  simpl in *. rewrite app_nil_r, He. apply walk_balance.
Qed.
End Walk.

Lemma content_after_first_body_is_dropped_witness :
  Examples.to_docx true (first_page_html ++ second_page_html) "http://a.example/"
  = ([], Ok (Some [Paragraph "first"; Paragraph "first"])).
Proof.
  unfold Examples.to_docx.
  rewrite (content_after_first_body_is_dropped MiniSoup.parse Examples.web
             MiniSoup.urljoin true (first_page_html ++ second_page_html)
             first_page_html "http://a.example/"
             (MiniSoup.parse second_page_html)).
  - vm_compute. reflexivity.
  - vm_compute. reflexivity.
  - vm_compute. discriminate.
Defined.

Lemma docx_pictures_and_warnings_witness :
  length (pictures [Heading 2 "One"; Paragraph "One"])
  + length (warnings (events (Examples.to_docx true Examples.page_one "http://b.example/")))
  = length (requests (events (Examples.to_docx true Examples.page_one "http://b.example/"))).
Proof.
  apply (docx_pictures_and_warnings MiniSoup.parse Examples.web MiniSoup.urljoin true
           Examples.page_one "http://b.example/").
  vm_compute. reflexivity.
Defined.

End TranslatorExtras.
